(** * shipbot: release reconciliation (cmd/shipbot/main.go)

    A shallow embedding of [main], [DoRelease], [findCommitSha] and
    [syncAsset].  The program talks to four collaborators: the GitHub
    release API, the local file system, a [git] subprocess and the process
    environment.  They are kept abstract (a record of oracles over an
    arbitrary world state); every call the program makes is logged, in
    order, in a trace, so that statements such as "no upload is performed"
    are statements about the trace of a run.

    Left out, as they decide nothing: the [glog] log lines, the
    [filepath.Abs] that only feeds one of them, the [context] and the empty
    [ListOptions] handed to the API.  The slices the API returns hold
    non-nil pointers, so their elements are plain records here. *)

From Stdlib Require Import ZArith NArith Ascii String List Lia.
From stdpp Require Import base option list strings gmap.

Open Scope Z_scope.

(** ** Go strings

    A Go string is a sequence of bytes; [string] (a list of 8-bit [ascii])
    is exactly that, and [String.length] is Go's [len]. *)

Definition byte (c : ascii) : N := N_of_ascii c.

(** *** strings.TrimSpace

    [strings.TrimSpace] belongs to the Go standard library.  It removes
    every leading and trailing white-space rune, as defined by
    [unicode.IsSpace], from the UTF-8 decoding of its argument:
    U+0009..U+000D, U+0020, U+0085, U+00A0, U+1680, U+2000..U+200A,
    U+2028, U+2029, U+202F, U+205F and U+3000.  A byte sequence decodes to
    one of these runes exactly when it is the canonical encoding below
    (overlong forms and stray bytes decode to U+FFFD, which is no space). *)

(** The one-byte white space, Go's [asciiSpace] table. *)
Definition asciiSpace (c : ascii) : bool :=
  match byte c with
  | 9 | 10 | 11 | 12 | 13 | 32 => true
  | _ => false
  end%N.

(** U+0085 (C2 85) and U+00A0 (C2 A0). *)
Definition space2 (c1 c2 : ascii) : bool :=
  (byte c1 =? 194)%N && ((byte c2 =? 133)%N || (byte c2 =? 160)%N).

(** U+1680 (E1 9A 80), U+2000..U+200A (E2 80 80..8A), U+2028, U+2029
    (E2 80 A8, A9), U+202F (E2 80 AF), U+205F (E2 81 9F), U+3000 (E3 80 80). *)
Definition space3 (c1 c2 c3 : ascii) : bool :=
  ((byte c1 =? 225)%N && (byte c2 =? 154)%N && (byte c3 =? 128)%N)
  || ((byte c1 =? 226)%N && (byte c2 =? 128)%N
      && (((128 <=? byte c3)%N && (byte c3 <=? 138)%N)
          || (byte c3 =? 168)%N || (byte c3 =? 169)%N || (byte c3 =? 175)%N))
  || ((byte c1 =? 226)%N && (byte c2 =? 129)%N && (byte c3 =? 159)%N)
  || ((byte c1 =? 227)%N && (byte c2 =? 128)%N && (byte c3 =? 128)%N).

Section Trim.
(** The three recognisers are parameters so that the same scan serves
    both ends: from the right the bytes are met in reverse order. *)
Variable sp1 : ascii → bool.
Variable sp2 : ascii → ascii → bool.
Variable sp3 : ascii → ascii → ascii → bool.

(** Width in bytes of the white-space rune the sequence starts with,
    [0] when it starts with none. *)
Definition spaceWidth (l : list ascii) : nat :=
  match l with
  | [] => 0
  | c1 :: r1 =>
      if sp1 c1 then 1%nat else
      match r1 with
      | [] => 0
      | c2 :: r2 =>
          if sp2 c1 c2 then 2%nat else
          match r2 with
          | [] => 0
          | c3 :: _ => if sp3 c1 c2 c3 then 3%nat else 0
          end
      end
  end.

Fixpoint trimStart (l : list ascii) : list ascii :=
  match l with
  | [] => []
  | c1 :: r1 =>
      if sp1 c1 then trimStart r1 else
      match r1 with
      | [] => l
      | c2 :: r2 =>
          if sp2 c1 c2 then trimStart r2 else
          match r2 with
          | [] => l
          | c3 :: r3 => if sp3 c1 c2 c3 then trimStart r3 else l
          end
      end
  end.

(** A sequence made of white-space runes only. *)
Inductive spaces : list ascii → Prop :=
| spaces_nil : spaces []
| spaces_1 c1 l : sp1 c1 = true → spaces l → spaces (c1 :: l)
| spaces_2 c1 c2 l : sp2 c1 c2 = true → spaces l → spaces (c1 :: c2 :: l)
| spaces_3 c1 c2 c3 l :
    sp3 c1 c2 c3 = true → spaces l → spaces (c1 :: c2 :: c3 :: l).
End Trim.

Definition trimLeft : list ascii → list ascii :=
  trimStart asciiSpace space2 space3.

Definition trimRight (l : list ascii) : list ascii :=
  rev (trimStart asciiSpace (λ c1 c2, space2 c2 c1)
                 (λ c1 c2 c3, space3 c3 c2 c1) (rev l)).

Definition TrimSpace (s : string) : string :=
  string_of_list_ascii (trimRight (trimLeft (list_ascii_of_string s))).

(** Does the string begin (end) with a white-space rune? *)
Definition hasLeadingSpace (s : string) : bool :=
  negb (spaceWidth asciiSpace space2 space3 (list_ascii_of_string s) =? 0)%nat.

Definition hasTrailingSpace (s : string) : bool :=
  negb (spaceWidth asciiSpace (λ c1 c2, space2 c2 c1)
                   (λ c1 c2 c3, space3 c3 c2 c1)
                   (rev (list_ascii_of_string s)) =? 0)%nat.

(** A string of white-space runes only (read from the left). *)
Definition whitespace (s : string) : Prop :=
  spaces asciiSpace space2 space3 (list_ascii_of_string s).

Definition newline : string := String (ascii_of_N 10) "".
Definition nbsp : string := String (ascii_of_N 194) (String (ascii_of_N 160) "").

(** ** Data model *)

(** Go's nullable pointers ([*string], [*int], [*int64], [*bool]) are
    options; [sv], [iv], [i64v], [s] and [b] are the helpers of main.go. *)
Definition sv (v : option string) : string :=
  match v with None => "" | Some x => x end.

Definition iv (v : option Z) : Z :=
  match v with None => 0 | Some x => x end.

Definition i64v (v : option Z) : Z :=
  match v with None => 0 | Some x => x end.

Definition s (v : string) : option string := Some v.

Definition b (v : bool) : option bool := Some v.

(** The conversion [int64(x)] of an [int]: Go's [int] has 32 or 64 bits,
    so the conversion keeps the value. *)
Definition int64 (v : Z) : Z := v.

(** github.RepositoryRelease, the fields main.go reads or sets (the others
    stay nil in the record it builds). *)
Module RepositoryRelease.
Record t : Type := mk {
  ID : option Z;
  TagName : option string;
  TargetCommitish : option string;
  Name : option string;
  Body : option string;
  Draft : option bool
}.
End RepositoryRelease.

(** github.ReleaseAsset, the fields main.go reads. *)
Module ReleaseAsset.
Record t : Type := mk {
  Name : option string;
  Size : option Z
}.
End ReleaseAsset.

Record AssetMapping : Type := {
  Source : string;
  GithubName : string;
  Optional : bool
}.

Record Config : Type := {
  Owner : string;
  Repo : string;
  Assets : list AssetMapping
}.

(** The API client ([*github.Client]): all that distinguishes two clients here is how they
    authenticate. *)
Inductive Client : Type :=
| OAuth2Client (AccessToken : string)
| BasicAuthClient (Username Password : string).

Module Shipbot.
Record t : Type := mk {
  Client : Client;
  Config : Config
}.
End Shipbot.

(** os.FileInfo (only [Size()] is read) and *os.File. *)
Record FileInfo : Type := { Size : Z }.
Record File : Type := { Name : string }.

Inductive Errno : Type := ENOENT | EACCES | Errno_other (code : Z).

(** Go [error] values: those the collaborators hand back, and one
    constructor for each [fmt.Errorf] of main.go.  In the words of the
    specification: [ErrGettingGitSha] and [ErrShaLength] are the
    ResolutionError, [ErrDoingStat] the SourceNotFoundError,
    [ErrSizeDidNotMatch] the AssetConflictError, [ErrOpening] and
    [ErrUploadingAssets] the UploadError, and the three registry wrappers
    the RegistryError. *)
Inductive error : Type :=
| PathError (op path : string) (errno : Errno)
| ExitError (code : Z)
| APIError (message : string)
| OtherError (message : string)
| ErrListingReleases (err : error)
| ErrCannotFindSha (tag : string) (err : error)
| ErrCreatingRelease (err : error)
| ErrListingAssets (err : error)
| ErrGettingGitSha (tag : string) (err : error)
| ErrShaLength (sha : string)
| ErrDoingStat (source : string) (err : error)
| ErrSizeDidNotMatch (githubName : string)
| ErrOpening (source : string) (err : error)
| ErrUploadingAssets (githubName : string) (err : error).

Inductive result (A : Type) : Type :=
| Ok (a : A)
| Err (err : error).
Arguments Ok {A} a.
Arguments Err {A} err.

(** The package-level variables. *)
Record Globals : Type := {
  tag : string;
  target : string;
  configFile : string;
  githubUser : string;
  githubPassword : string;
  githubAccessToken : string
}.

(** What [flag.Parse] found on the command line ([None]: flag not given). *)
Record CommandLine : Type := {
  flag_tag : option string;
  flag_target : option string;
  flag_config : option string;
  flag_builddir : option string
}.

(** ** Calls to the outside world *)

Inductive event : Type :=
| EvGetwd
| EvReadFile (filename : string)
| EvRun (dir name : string) (args : list string)
| EvStat (name : string)
| EvOpen (name : string)
| EvClose (f : File)
| EvListReleases (owner repo : string)
| EvCreateRelease (owner repo : string) (release : RepositoryRelease.t)
| EvListReleaseAssets (owner repo : string) (id : Z)
| EvUploadReleaseAsset (owner repo : string) (id : Z) (name : string) (f : File).

Definition is_network (e : event) : bool :=
  match e with
  | EvListReleases _ _ | EvCreateRelease _ _ _
  | EvListReleaseAssets _ _ _ | EvUploadReleaseAsset _ _ _ _ _ => true
  | _ => false
  end.

Definition is_create (e : event) : bool :=
  match e with EvCreateRelease _ _ _ => true | _ => false end.

Definition is_upload (e : event) : bool :=
  match e with EvUploadReleaseAsset _ _ _ _ _ => true | _ => false end.

Definition network_calls (t : list event) : list event := List.filter is_network t.
Definition creations (t : list event) : list event := List.filter is_create t.
Definition uploads (t : list event) : list event := List.filter is_upload t.

(** The collaborators.  [W] is the state of the world (remote registry,
    file system, ...); each call may depend on it and change it. *)
Record Env (W : Type) : Type := {
  os_Getenv : string → string;
  os_Getwd : W → result string * W;
  ioutil_ReadFile : string → W → result string * W;
  yaml_Unmarshal : string → result Config;
  cmd_Run : string → string → list string → W → (option error * string) * W;
  os_Stat : string → W → result FileInfo * W;
  os_Open : string → W → result File * W;
  Repositories_ListReleases :
    Client → string → string → W → result (list RepositoryRelease.t) * W;
  Repositories_CreateRelease :
    Client → string → string → RepositoryRelease.t → W →
    result RepositoryRelease.t * W;
  Repositories_ListReleaseAssets :
    Client → string → string → Z → W → result (list ReleaseAsset.t) * W;
  Repositories_UploadReleaseAsset :
    Client → string → string → Z → string → File → W →
    result ReleaseAsset.t * W
}.
Arguments os_Getenv {W}.
Arguments os_Getwd {W}.
Arguments ioutil_ReadFile {W}.
Arguments yaml_Unmarshal {W}.
Arguments cmd_Run {W}.
Arguments os_Stat {W}.
Arguments os_Open {W}.
Arguments Repositories_ListReleases {W}.
Arguments Repositories_CreateRelease {W}.
Arguments Repositories_ListReleaseAssets {W}.
Arguments Repositories_UploadReleaseAsset {W}.

(** The state a run threads: the package variables and the world. *)
Record State (W : Type) : Type := {
  globals : Globals;
  world : W
}.
Arguments Build_State {W}.
Arguments globals {W}.
Arguments world {W}.

(** A computation returns the calls it made, the new state and its value.
    Go has no exceptions: an [error] is an ordinary value. *)
Definition M (W A : Type) : Type := State W → list event * State W * A.

Global Instance M_ret {W} : MRet (M W) := λ A a st, ([], st, a).

Global Instance M_bind {W} : MBind (M W) := λ A B f m st,
  let '(t1, st1, a) := m st in
  let '(t2, st2, r) := f a st1 in
  (t1 ++ t2, st2, r).

Definition call {W A} (ev : event) (oracle : W → A * W) : M W A := λ st,
  let '(a, w) := oracle (world st) in
  ([ev], Build_State (globals st) w, a).

Definition getGlobal {W A} (f : Globals → A) : M W A := λ st,
  ([], st, f (globals st)).

Definition setTarget {W} (v : string) : M W unit := λ st,
  let g := globals st in
  ([], Build_State
         {| tag := tag g; target := v; configFile := configFile g;
            githubUser := githubUser g; githubPassword := githubPassword g;
            githubAccessToken := githubAccessToken g |} (world st), tt).

Definition trace {W A} (r : list event * State W * A) : list event := r.1.1.
Definition final {W A} (r : list event * State W * A) : State W := r.1.2.
Definition value {W A} (r : list event * State W * A) : A := r.2.

(** ** The program *)

Inductive fatal : Type :=
| FatalGetwd (err : error)
| FatalNoTag
| FatalNoConfig
| FatalReadConfig (configFile : string) (err : error)
| FatalParseConfig (configFile : string) (err : error)
| FatalNoCredentials
| FatalUnexpected (err : error).

(** How the process ends: [glog.Fatalf] logs and exits with a non-zero
    status; returning from [main] exits with status 0. *)
Inductive exit : Type :=
| Exit0
| Fatalf (msg : fatal).

(** The release record built at lines 147-153. *)
Definition draft (tag target : string) : RepositoryRelease.t :=
  {| RepositoryRelease.ID := None;
     RepositoryRelease.TagName := s tag;
     RepositoryRelease.TargetCommitish := s target;
     RepositoryRelease.Name := s tag;
     RepositoryRelease.Body := s ("Release " +:+ tag +:+ " (draft)");
     RepositoryRelease.Draft := b true |}.

(** The arguments of [exec.Command("git", "rev-list", "-n", "1", tag)]. *)
Definition gitArgs (tag : string) : list string := ["rev-list"; "-n"; "1"; tag].

Section Program.
Context {W : Type} (env : Env W).

Definition findCommitSha (basedir tag : string) : M W (string * option error) :=
  '(err, out) ← call (EvRun basedir "git" (gitArgs tag))
                     (cmd_Run env basedir "git" (gitArgs tag));
  match err with
  | Some err => mret ("", Some (ErrGettingGitSha tag err))
  | None =>
      let sha := TrimSpace out in
      if negb (String.length sha =? 40)%nat
      then mret ("", Some (ErrShaLength sha))
      else mret (sha, None)
  end.

Definition syncAsset (sb : Shipbot.t) (release : RepositoryRelease.t)
    (assetMapping : AssetMapping)
    (assets : gmap string ReleaseAsset.t) : M W (option error) :=
  let cfg := Shipbot.Config sb in
  r ← call (EvStat (Source assetMapping)) (os_Stat env (Source assetMapping));
  match r with
  | Err err =>
      if negb (Optional assetMapping)
      then mret (Some (ErrDoingStat (Source assetMapping) err))
      else mret None
  | Ok srcStat =>
      match assets !! GithubName assetMapping with
      | Some existing =>
          if negb (int64 (iv (ReleaseAsset.Size existing)) =? Size srcStat)
          then mret (Some (ErrSizeDidNotMatch (GithubName assetMapping)))
          else mret None
      | None =>
          r ← call (EvOpen (Source assetMapping))
                   (os_Open env (Source assetMapping));
          match r with
          | Err err => mret (Some (ErrOpening (Source assetMapping) err))
          | Ok f =>
              let id := i64v (RepositoryRelease.ID release) in
              let name := GithubName assetMapping in
              r ← call (EvUploadReleaseAsset (Owner cfg) (Repo cfg) id name f)
                       (Repositories_UploadReleaseAsset env (Shipbot.Client sb)
                          (Owner cfg) (Repo cfg) id name f);
              _ ← call (EvClose f) (λ w, (tt, w));
              match r with
              | Err err => mret (Some (ErrUploadingAssets name err))
              | Ok _ => mret None
              end
          end
      end
  end.

(** [for _, release := range releases { if sv(release.TagName) == tag
    { found = release } }] *)
Definition findRelease (tag : string) (releases : list RepositoryRelease.t)
    : option RepositoryRelease.t :=
  fold_left
    (λ found release,
       if String.eqb (sv (RepositoryRelease.TagName release)) tag
       then Some release else found)
    releases None.

(** [for _, asset := range assets { assetMap[sv(asset.Name)] = asset }] *)
Definition buildAssetMap (assets : list ReleaseAsset.t)
    : gmap string ReleaseAsset.t :=
  fold_left (λ assetMap asset, <[sv (ReleaseAsset.Name asset) := asset]> assetMap)
            assets ∅.

(** [for i := range sb.Config.Assets { ... if err != nil { return err } }] *)
Fixpoint syncAssets (sb : Shipbot.t) (found : RepositoryRelease.t)
    (assetMap : gmap string ReleaseAsset.t)
    (mappings : list AssetMapping) : M W (option error) :=
  match mappings with
  | [] => mret None
  | assetMapping :: rest =>
      err ← syncAsset sb found assetMapping assetMap;
      match err with
      | Some err => mret (Some err)
      | None => syncAssets sb found assetMap rest
      end
  end.

(** [DoRelease], lines 124-160: list the releases, find the one for the
    tag and create it when there is none.  [Err] stands for the early
    [return fmt.Errorf(...)], [Ok found] for reaching line 162. *)
Definition ensureRelease (sb : Shipbot.t) (buildDir : string)
    : M W (result RepositoryRelease.t) :=
  let cfg := Shipbot.Config sb in
  let client := Shipbot.Client sb in
  r ← call (EvListReleases (Owner cfg) (Repo cfg))
           (Repositories_ListReleases env client (Owner cfg) (Repo cfg));
  match r with
  | Err err => mret (Err (ErrListingReleases err))
  | Ok releases =>
      tag ← getGlobal tag;
      match findRelease tag releases with
      | Some found => mret (Ok found)
      | None =>
          target0 ← getGlobal target;
          err ← (if String.eqb target0 ""
                 then '(sha, err) ← findCommitSha buildDir tag;
                      _ ← setTarget sha;
                      mret err
                 else mret None);
          match err with
          | Some err => mret (Err (ErrCannotFindSha tag err))
          | None =>
              target ← getGlobal target;
              let release := draft tag target in
              r ← call (EvCreateRelease (Owner cfg) (Repo cfg) release)
                       (Repositories_CreateRelease env client
                          (Owner cfg) (Repo cfg) release);
              match r with
              | Err err => mret (Err (ErrCreatingRelease err))
              | Ok found => mret (Ok found)
              end
          end
      end
  end.

(** [DoRelease]: the part above, then lines 162-181. *)
Definition DoRelease (sb : Shipbot.t) (buildDir : string) : M W (option error) :=
  let cfg := Shipbot.Config sb in
  let client := Shipbot.Client sb in
  r ← ensureRelease sb buildDir;
  match r with
  | Err err => mret (Some err)
  | Ok found =>
      let id := i64v (RepositoryRelease.ID found) in
      r ← call (EvListReleaseAssets (Owner cfg) (Repo cfg) id)
               (Repositories_ListReleaseAssets env client
                  (Owner cfg) (Repo cfg) id);
      match r with
      | Err err => mret (Some (ErrListingAssets err))
      | Ok assets =>
          syncAssets sb found (buildAssetMap assets) (Assets cfg)
      end
  end.

(** The package variables as initialised before [main] runs. *)
Definition initGlobals : Globals :=
  {| tag := ""; target := ""; configFile := "";
     githubUser := os_Getenv env "GITHUB_USER";
     githubPassword := os_Getenv env "GITHUB_PASSWORD";
     githubAccessToken := os_Getenv env "GITHUB_TOKEN" |}.

(** [flag.Parse]: a flag that was given overwrites its variable. *)
Definition flagParse (cmd : CommandLine) : M W unit := λ st,
  let g := globals st in
  ([], Build_State
         {| tag := default (tag g) (flag_tag cmd);
            target := default (target g) (flag_target cmd);
            configFile := default (configFile g) (flag_config cmd);
            githubUser := githubUser g; githubPassword := githubPassword g;
            githubAccessToken := githubAccessToken g |} (world st), tt).

(** The package variables once the flags are parsed: what [flagParse]
    makes of [initGlobals]. *)
Definition parsed (cmd : CommandLine) : Globals :=
  {| tag := default "" (flag_tag cmd);
     target := default "" (flag_target cmd);
     configFile := default "" (flag_config cmd);
     githubUser := os_Getenv env "GITHUB_USER";
     githubPassword := os_Getenv env "GITHUB_PASSWORD";
     githubAccessToken := os_Getenv env "GITHUB_TOKEN" |}.

(** The block of [main] that builds the API client (lines 94-111);
    [None] is the [glog.Fatalf] branch. *)
Definition newClient (g : Globals) : option Client :=
  if negb (String.eqb (githubAccessToken g) "")
  then Some (OAuth2Client (githubAccessToken g))
  else if negb (String.eqb (githubUser g) "")
          && negb (String.eqb (githubPassword g) "")
  then Some (BasicAuthClient (githubUser g) (githubPassword g))
  else None.

Definition main (cmd : CommandLine) : M W exit :=
  r ← call EvGetwd (os_Getwd env);
  match r with
  | Err err => mret (Fatalf (FatalGetwd err))
  | Ok cwd =>
      _ ← flagParse cmd;
      let buildDir := default cwd (flag_builddir cmd) in
      tag ← getGlobal tag;
      if String.eqb tag "" then mret (Fatalf FatalNoTag) else
      configFile ← getGlobal configFile;
      if String.eqb configFile "" then mret (Fatalf FatalNoConfig) else
      r ← call (EvReadFile configFile) (ioutil_ReadFile env configFile);
      match r with
      | Err err => mret (Fatalf (FatalReadConfig configFile err))
      | Ok configBytes =>
          match yaml_Unmarshal env configBytes with
          | Err err => mret (Fatalf (FatalParseConfig configFile err))
          | Ok config =>
              g ← getGlobal id;
              match newClient g with
              | None => mret (Fatalf FatalNoCredentials)
              | Some client =>
                  err ← DoRelease (Shipbot.mk client config) buildDir;
                  match err with
                  | Some err => mret (Fatalf (FatalUnexpected err))
                  | None => mret Exit0
                  end
              end
          end
      end
  end.

(** A run of the process from the world [w]. *)
Definition run (cmd : CommandLine) (w : W) : list event * State W * exit :=
  main cmd (Build_State initGlobals w).
End Program.

(** ** A small concrete world

    A registry that remembers what it is sent, a file system given as a
    table of sizes and a [git] whose answer is fixed: enough to run the
    program on examples. *)
Module Demo.
(** The local files: sizes by path, and the paths that may not be read. *)
Record FileSystem : Type := {
  files : list (string * Z);
  unreadable : list string
}.

(** The registry and the answer of [git]. *)
Record World : Type := {
  releases : list RepositoryRelease.t;
  assets : list ReleaseAsset.t;
  gitResult : option error * string
}.

Fixpoint lookup (k : string) (l : list (string * Z)) : option Z :=
  match l with
  | [] => None
  | (k', v) :: l' => if String.eqb k k' then Some v else lookup k l'
  end.

Fixpoint getenv (environ : list (string * string)) (k : string) : string :=
  match environ with
  | [] => ""
  | (k', v) :: l' => if String.eqb k k' then v else getenv l' k
  end.

Definition stat (fs : FileSystem) (name : string) : result FileInfo :=
  if existsb (String.eqb name) (unreadable fs)
  then Err (PathError "stat" name EACCES)
  else match lookup name (files fs) with
       | Some size => Ok {| Size := size |}
       | None => Err (PathError "stat" name ENOENT)
       end.

Definition open (fs : FileSystem) (name : string) : result File :=
  match lookup name (files fs) with
  | Some _ => Ok {| Name := name |}
  | None => Err (PathError "open" name ENOENT)
  end.

Definition createRelease (release : RepositoryRelease.t) (w : World)
    : result RepositoryRelease.t * World :=
  let created :=
    {| RepositoryRelease.ID := Some (1 + Z.of_nat (length (releases w)));
       RepositoryRelease.TagName := RepositoryRelease.TagName release;
       RepositoryRelease.TargetCommitish := RepositoryRelease.TargetCommitish release;
       RepositoryRelease.Name := RepositoryRelease.Name release;
       RepositoryRelease.Body := RepositoryRelease.Body release;
       RepositoryRelease.Draft := RepositoryRelease.Draft release |} in
  (Ok created,
   {| releases := releases w ++ [created]; assets := assets w;
      gitResult := gitResult w |}).

Definition upload (fs : FileSystem) (name : string) (f : File) (w : World)
    : result ReleaseAsset.t * World :=
  let asset :=
    {| ReleaseAsset.Name := Some name;
       ReleaseAsset.Size := lookup (Name f) (files fs) |} in
  (Ok asset,
   {| releases := releases w; assets := assets w ++ [asset];
      gitResult := gitResult w |}).

Definition env (environ : list (string * string)) (config : Config)
    (fs : FileSystem) : Env World :=
  {| os_Getenv := getenv environ;
     os_Getwd := λ w, (Ok "/build", w);
     ioutil_ReadFile := λ _ w, (Ok "", w);
     yaml_Unmarshal := λ _, Ok config;
     cmd_Run := λ _ _ _ w, (gitResult w, w);
     os_Stat := λ name w, (stat fs name, w);
     os_Open := λ name w, (open fs name, w);
     Repositories_ListReleases := λ _ _ _ w, (Ok (releases w), w);
     Repositories_CreateRelease := λ _ _ _ release w, createRelease release w;
     Repositories_ListReleaseAssets := λ _ _ _ _ w, (Ok (assets w), w);
     Repositories_UploadReleaseAsset := λ _ _ _ _ name f w, upload fs name f w |}.

Definition sha : string := "0123456789abcdef0123456789abcdef01234567".

Definition bin : AssetMapping :=
  {| Source := "dist/bin"; GithubName := "bin-linux-amd64"; Optional := false |}.

Definition config : Config :=
  {| Owner := "o"; Repo := "r"; Assets := [bin] |}.

Definition fs : FileSystem :=
  {| files := [("dist/bin", 1024)]; unreadable := [] |}.

Definition locked : FileSystem :=
  {| files := [("dist/bin", 1024)]; unreadable := ["dist/bin"] |}.

Definition world : World :=
  {| releases := []; assets := []; gitResult := (None, sha +:+ newline) |}.

(** A registry where two releases carry the tag v1.0.0. *)
Definition tagged : World :=
  {| releases :=
       [ RepositoryRelease.mk (Some 7) (Some "v1.0.0") None None None None;
         RepositoryRelease.mk (Some 8) (Some "v0.9.0") None None None None;
         RepositoryRelease.mk (Some 9) (Some "v1.0.0") None None None None ];
     assets := []; gitResult := (None, "") |}.

Definition silent : World :=
  {| releases := []; assets := []; gitResult := (None, "") |}.

Definition cmdline : CommandLine :=
  {| flag_tag := Some "v1.0.0"; flag_target := None;
     flag_config := Some "shipbot.yaml"; flag_builddir := None |}.

Definition token : list (string * string) := [("GITHUB_TOKEN", "t0k3n")].

Definition sb : Shipbot.t := Shipbot.mk (OAuth2Client "t0k3n") config.

Definition release : RepositoryRelease.t :=
  RepositoryRelease.mk (Some 1) (Some "v1.0.0") None None None None.

Definition globals (tag target : string) : Globals :=
  {| tag := tag; target := target; configFile := "shipbot.yaml";
     githubUser := ""; githubPassword := ""; githubAccessToken := "t0k3n" |}.

Definition state (w : World) : State World :=
  Build_State (globals "v1.0.0" "") w.
End Demo.

(** ** More observations on traces *)

Definition is_run (e : event) : bool :=
  match e with EvRun _ _ _ => true | _ => false end.

Definition is_stat (e : event) : bool :=
  match e with EvStat _ => true | _ => false end.

(** The sources that were statted, in order. *)
Definition stats (t : list event) : list event := List.filter is_stat t.

(** The subprocesses that were run, in order. *)
Definition subprocesses (t : list event) : list event := List.filter is_run t.



(** ** A world where calls can fail

    The concrete world above, with a switch for each call that makes it
    return an error. *)
Module Faulty.
Record Faults : Type := {
  getwd : bool;
  readFile : bool;
  unmarshal : bool;
  open : bool;
  listReleases : bool;
  createRelease : bool;
  listReleaseAssets : bool;
  upload : bool
}.

Definition none : Faults :=
  {| getwd := false; readFile := false; unmarshal := false; open := false;
     listReleases := false; createRelease := false;
     listReleaseAssets := false; upload := false |}.

Definition env (f : Faults) (environ : list (string * string)) (config : Config)
    (fs : Demo.FileSystem) : Env Demo.World :=
  {| os_Getenv := Demo.getenv environ;
     os_Getwd := λ w,
       if getwd f then (Err (OtherError "getwd"), w) else (Ok "/build", w);
     ioutil_ReadFile := λ name w,
       if readFile f then (Err (PathError "open" name ENOENT), w) else (Ok "", w);
     yaml_Unmarshal := λ _,
       if unmarshal f then Err (OtherError "yaml") else Ok config;
     cmd_Run := λ _ _ _ w, (Demo.gitResult w, w);
     os_Stat := λ name w, (Demo.stat fs name, w);
     os_Open := λ name w,
       if open f then (Err (PathError "open" name EACCES), w)
       else (Demo.open fs name, w);
     Repositories_ListReleases := λ _ _ _ w,
       if listReleases f then (Err (APIError "500"), w)
       else (Ok (Demo.releases w), w);
     Repositories_CreateRelease := λ _ _ _ release w,
       if createRelease f then (Err (APIError "422"), w)
       else Demo.createRelease release w;
     Repositories_ListReleaseAssets := λ _ _ _ _ w,
       if listReleaseAssets f then (Err (APIError "500"), w)
       else (Ok (Demo.assets w), w);
     Repositories_UploadReleaseAsset := λ _ _ _ _ name file w,
       if upload f then (Err (APIError "502"), w)
       else Demo.upload fs name file w |}.

(** A [git] that fails although it printed a sha. *)
Definition gitFailed : Demo.World :=
  {| Demo.releases := []; Demo.assets := [];
     Demo.gitResult := (Some (ExitError 128), Demo.sha +:+ newline) |}.

(** A [git] whose output is wrapped in blanks and a Windows line end. *)
Definition gitPadded : Demo.World :=
  {| Demo.releases := []; Demo.assets := [];
     Demo.gitResult :=
       (None, "  " +:+ Demo.sha
              +:+ String (ascii_of_N 13) (String (ascii_of_N 10) "")) |}.

(** A [git] that prints a blank line only. *)
Definition gitBlank : Demo.World :=
  {| Demo.releases := []; Demo.assets := [];
     Demo.gitResult := (None, " " +:+ newline) |}.
End Faulty.

(** * Properties *)

(** ** Sanity checks of the model *)

Example TrimSpace_ascii :
  TrimSpace ("  v1.0 " +:+ newline) = "v1.0".
Proof. reflexivity. Qed.

Example TrimSpace_inner : TrimSpace " a b " = "a b".
Proof. reflexivity. Qed.

Example TrimSpace_nbsp : TrimSpace (nbsp +:+ "x" +:+ nbsp +:+ newline) = "x".
Proof. reflexivity. Qed.

Example TrimSpace_stray : TrimSpace (String (ascii_of_N 160) "x") = String (ascii_of_N 160) "x".
Proof. reflexivity. Qed.

(** The end-to-end scenario: no release yet, one 1024-byte file. *)
Example run_end_to_end :
  let r := run (Demo.env Demo.token Demo.config Demo.fs) Demo.cmdline Demo.world in
  value r = Exit0 ∧
  network_calls (trace r) =
    [ EvListReleases "o" "r";
      EvCreateRelease "o" "r"
        (RepositoryRelease.mk None (Some "v1.0.0") (Some Demo.sha)
           (Some "v1.0.0") (Some "Release v1.0.0 (draft)") (Some true));
      EvListReleaseAssets "o" "r" 1;
      EvUploadReleaseAsset "o" "r" 1 "bin-linux-amd64" {| Name := "dist/bin" |} ].
Proof. split; reflexivity. Qed.

(** ** Strings and trimming *)

Lemma list_ascii_of_string_app (s1 s2 : string) :
  list_ascii_of_string (s1 +:+ s2)
  = list_ascii_of_string s1 ++ list_ascii_of_string s2.
Proof. induction s1 as [|c s1 IH]; simpl; [done | by rewrite IH]. Qed.

Lemma string_of_list_ascii_app (l1 l2 : list ascii) :
  string_of_list_ascii (l1 ++ l2)
  = string_of_list_ascii l1 +:+ string_of_list_ascii l2.
Proof. induction l1 as [|c l1 IH]; simpl; [done | by rewrite IH]. Qed.

Lemma length_list_ascii_of_string (s : string) :
  length (list_ascii_of_string s) = String.length s.
Proof. induction s as [|c s IH]; simpl; [done | by rewrite IH]. Qed.

Lemma length_string_of_list_ascii (l : list ascii) :
  String.length (string_of_list_ascii l) = length l.
Proof. induction l as [|c l IH]; simpl; [done | by rewrite IH]. Qed.

Section TrimFacts.
Variable sp1 : ascii → bool.
Variable sp2 : ascii → ascii → bool.
Variable sp3 : ascii → ascii → ascii → bool.

Local Abbreviation width := (spaceWidth sp1 sp2 sp3).
Local Abbreviation trim := (trimStart sp1 sp2 sp3).
Local Abbreviation blank := (spaces sp1 sp2 sp3).

(** The scan drops up to three bytes at a time, hence induction on an
    upper bound of the length. *)
Lemma trimStart_bounded (n : nat) (l : list ascii) :
  (length l ≤ n)%nat →
  (∃ pre, l = pre ++ trim l ∧ blank pre) ∧ width (trim l) = 0%nat.
Proof.
  revert l. induction n as [|n IH]; intros l Hn.
  { destruct l; simpl in Hn; [|lia]. split; [exists []; split; [done|constructor] | done]. }
  destruct l as [|c1 r1]; [split; [exists []; split; [done|constructor] | done]|].
  simpl in Hn. simpl. destruct (sp1 c1) eqn:E1.
  { destruct (IH r1) as [[pre [Hp Hb]] Hw]; [lia|]. split; [|done].
    exists (c1 :: pre). split; [simpl; by rewrite <- Hp | by constructor]. }
  destruct r1 as [|c2 r2]; [split; [by exists []; split; [|constructor] | simpl; by rewrite E1]|].
  simpl in Hn. destruct (sp2 c1 c2) eqn:E2.
  { destruct (IH r2) as [[pre [Hp Hb]] Hw]; [lia|]. split; [|done].
    exists (c1 :: c2 :: pre). split; [simpl; by rewrite <- Hp | by constructor]. }
  destruct r2 as [|c3 r3];
    [split; [by exists []; split; [|constructor] | simpl; by rewrite E1, E2]|].
  simpl in Hn. destruct (sp3 c1 c2 c3) eqn:E3.
  { destruct (IH r3) as [[pre [Hp Hb]] Hw]; [lia|]. split; [|done].
    exists (c1 :: c2 :: c3 :: pre). split; [simpl; by rewrite <- Hp | by constructor]. }
  split; [by exists []; split; [|constructor] | simpl; by rewrite E1, E2, E3].
Qed.

Lemma trimStart_split (l : list ascii) : ∃ pre, l = pre ++ trim l ∧ blank pre.
Proof. by destruct (trimStart_bounded (length l) l). Qed.

Lemma trimStart_width (l : list ascii) : width (trim l) = 0%nat.
Proof. by destruct (trimStart_bounded (length l) l). Qed.

Lemma trimStart_id (l : list ascii) : width l = 0%nat → trim l = l.
Proof.
  destruct l as [|c1 [|c2 [|c3 r3]]]; simpl; try done;
    repeat (case_match; try done).
Qed.

Lemma width_app_l (l1 l2 : list ascii) :
  width (l1 ++ l2) = 0%nat → width l1 = 0%nat.
Proof.
  destruct l1 as [|c1 [|c2 [|c3 r3]]]; simpl; try done;
    repeat (case_match; try done).
Qed.

Lemma width_app_r (l1 l2 : list ascii) :
  (3 ≤ length l1)%nat → width l1 = 0%nat → width (l1 ++ l2) = 0%nat.
Proof.
  destruct l1 as [|c1 [|c2 [|c3 r3]]]; simpl; try lia; intros _;
    repeat (case_match; try done).
Qed.

Lemma spaces_app (l1 l2 : list ascii) : blank l1 → blank l2 → blank (l1 ++ l2).
Proof.
  induction 1; simpl; intros; auto;
    [apply spaces_1 | apply spaces_2 | apply spaces_3]; auto.
Qed.
End TrimFacts.

Lemma spaces_rev sp1 sp2 sp3 (l : list ascii) :
  spaces sp1 sp2 sp3 l →
  spaces sp1 (λ c1 c2, sp2 c2 c1) (λ c1 c2 c3, sp3 c3 c2 c1) (rev l).
Proof.
  induction 1 as [|c1 l H1 _ IH|c1 c2 l H2 _ IH|c1 c2 c3 l H3 _ IH]; simpl.
  - constructor.
  - apply spaces_app; [done|]. constructor; [done | constructor].
  - rewrite <- app_assoc. apply spaces_app; [done|].
    apply spaces_2; [done | constructor].
  - rewrite <- !app_assoc. apply spaces_app; [done|].
    apply spaces_3; [done | constructor].
Qed.

(** What [TrimSpace] returns is its argument without a prefix and a suffix
    of white space, and has white space at neither end. *)
Lemma TrimSpace_split (out : string) :
  ∃ pre post, out = pre +:+ TrimSpace out +:+ post
              ∧ whitespace pre ∧ whitespace post.
Proof.
  unfold TrimSpace, trimRight, trimLeft, whitespace.
  set (l := list_ascii_of_string out).
  destruct (trimStart_split asciiSpace space2 space3 l) as [pre [Hl Hpre]].
  set (m := trimStart asciiSpace space2 space3 l) in *.
  destruct (trimStart_split asciiSpace (λ c1 c2, space2 c2 c1)
              (λ c1 c2 c3, space3 c3 c2 c1) (rev m)) as [post [Hm Hpost]].
  set (k := trimStart _ _ _ (rev m)) in *.
  exists (string_of_list_ascii pre), (string_of_list_ascii (rev post)).
  rewrite !list_ascii_of_string_of_list_ascii. split; [|split; [done|]].
  - rewrite <- !string_of_list_ascii_app, <- rev_app_distr, <- Hm, rev_involutive, <- Hl.
    subst l. by rewrite string_of_list_ascii_of_string.
  - apply spaces_rev in Hpost. simpl in Hpost. exact Hpost.
Qed.

Lemma TrimSpace_no_leading (out : string) : hasLeadingSpace (TrimSpace out) = false.
Proof.
  unfold hasLeadingSpace, TrimSpace, trimRight, trimLeft.
  rewrite list_ascii_of_string_of_list_ascii.
  set (m := trimStart asciiSpace space2 space3 (list_ascii_of_string out)).
  destruct (trimStart_split asciiSpace (λ c1 c2, space2 c2 c1)
              (λ c1 c2 c3, space3 c3 c2 c1) (rev m)) as [post [Hm _]].
  assert (Hw : spaceWidth asciiSpace space2 space3 m = 0%nat)
    by apply trimStart_width.
  rewrite <- (rev_involutive m), Hm, rev_app_distr in Hw.
  apply width_app_l in Hw. by rewrite Hw.
Qed.

Lemma TrimSpace_no_trailing (out : string) : hasTrailingSpace (TrimSpace out) = false.
Proof.
  unfold hasTrailingSpace, TrimSpace, trimRight.
  rewrite list_ascii_of_string_of_list_ascii, rev_involutive.
  by rewrite trimStart_width.
Qed.

Lemma TrimSpace_id (out : string) :
  hasLeadingSpace out = false → hasTrailingSpace out = false → TrimSpace out = out.
Proof.
  unfold hasLeadingSpace, hasTrailingSpace, TrimSpace, trimRight, trimLeft.
  intros Hl%negb_false_iff%Nat.eqb_eq Hr%negb_false_iff%Nat.eqb_eq.
  rewrite (trimStart_id _ _ _ _ Hl), (trimStart_id _ _ _ _ Hr), rev_involutive.
  apply string_of_list_ascii_of_string.
Qed.

(** A string of at least three bytes without white space at its ends,
    followed by a newline, is trimmed back to itself. *)
Lemma TrimSpace_newline (sha : string) :
  (3 ≤ String.length sha)%nat →
  hasLeadingSpace sha = false → hasTrailingSpace sha = false →
  TrimSpace (sha +:+ newline) = sha.
Proof.
  unfold hasLeadingSpace, hasTrailingSpace, TrimSpace, trimRight, trimLeft.
  intros Hn Hl%negb_false_iff%Nat.eqb_eq Hr%negb_false_iff%Nat.eqb_eq.
  rewrite <- length_list_ascii_of_string in Hn.
  rewrite list_ascii_of_string_app.
  rewrite (trimStart_id _ _ _ (_ ++ _)); [|by apply width_app_r].
  rewrite rev_app_distr. simpl.
  rewrite (trimStart_id _ _ _ _ Hr), rev_involutive.
  apply string_of_list_ascii_of_string.
Qed.

(** ** Running computations *)

Ltac unfold_M :=
  unfold mbind, M_bind, mret, M_ret, call, getGlobal, setTarget,
         trace, final, value in *.

(** Case analysis on membership in an explicit trace. *)
Ltac trace_cases H :=
  unfold trace in H; simpl in H;
  repeat (apply elem_of_cons in H as [->|H]);
  try (by apply elem_of_nil in H);
  try (split; [done | intros; by simplify_eq]).

Lemma filter_none {A} (f : A → bool) (l : list A) :
  (∀ x, x ∈ l → f x = false) → List.filter f l = [].
Proof.
  induction l as [|a l IH]; intros H; simpl; [done|].
  rewrite (H a (list_elem_of_here _ _)). apply IH.
  intros x Hx. apply H. by apply list_elem_of_further.
Qed.

(** ** findCommitSha *)

Section FindCommitSha.
Context {W : Type} (env : Env W).

(** One subprocess is run; its exit status and output decide the result. *)
Lemma findCommitSha_run basedir tag st err out w :
  cmd_Run env basedir "git" (gitArgs tag) (world st) = ((err, out), w) →
  findCommitSha env basedir tag st
  = ([EvRun basedir "git" (gitArgs tag)], Build_State (globals st) w,
     match err with
     | Some err => ("", Some (ErrGettingGitSha tag err))
     | None =>
         if (String.length (TrimSpace out) =? 40)%nat
         then (TrimSpace out, None)
         else ("", Some (ErrShaLength (TrimSpace out)))
     end).
Proof.
  intros H. unfold findCommitSha. unfold_M. rewrite H.
  destruct err as [e|]; simpl; [done|].
  by destruct (String.length (TrimSpace out) =? 40)%nat.
Qed.

Lemma findCommitSha_trace basedir tag st :
  trace (findCommitSha env basedir tag st) = [EvRun basedir "git" (gitArgs tag)].
Proof.
  destruct (cmd_Run env basedir "git" (gitArgs tag) (world st)) as [[err out] w] eqn:H.
  by rewrite (findCommitSha_run _ _ _ _ _ _ H).
Qed.
End FindCommitSha.

(** C6, as amended: when the subprocess exits with code 0 and the length of
    its output after trimming leading and trailing white space is not 40,
    [findCommitSha] returns the unexpected-length error (the
    ResolutionError); this covers the empty output and every 41-character
    output that neither begins nor ends with white space. *)
Theorem findCommitSha_rejects_length {W} (env : Env W) basedir tag st out w :
  cmd_Run env basedir "git" (gitArgs tag) (world st) = ((None, out), w) →
  String.length (TrimSpace out) ≠ 40%nat
  ∨ out = ""
  ∨ (String.length out = 41%nat
     ∧ hasLeadingSpace out = false ∧ hasTrailingSpace out = false) →
  value (findCommitSha env basedir tag st)
  = ("", Some (ErrShaLength (TrimSpace out))).
Proof.
  intros Hrun Hlen. rewrite (findCommitSha_run _ _ _ _ _ _ _ Hrun). unfold value; simpl.
  assert (Hne : String.length (TrimSpace out) ≠ 40%nat).
  { destruct Hlen as [H|[->|(H & Hl & Hr)]]; [done | by compute |].
    rewrite (TrimSpace_id _ Hl Hr). lia. }
  apply Nat.eqb_neq in Hne. by rewrite Hne.
Qed.

Lemma findCommitSha_rejects_length_witness :
  value (findCommitSha (Demo.env Demo.token Demo.config Demo.fs) "/build" "v1.0.0"
           (Demo.state Demo.silent))
  = ("", Some (ErrShaLength "")).
Proof.
  apply (findCommitSha_rejects_length (Demo.env Demo.token Demo.config Demo.fs)
           "/build" "v1.0.0" (Demo.state Demo.silent) "" Demo.silent).
  - reflexivity.
  - right; left; reflexivity.
Defined.

(** C6, as stated, fails: the 41-character output of a real
    [git rev-list -n 1], a sha and a newline, is accepted. *)
Lemma findCommitSha_accepts_41_characters :
  ¬ (∀ W (env : Env W) basedir tag st out w,
       cmd_Run env basedir "git" (gitArgs tag) (world st) = ((None, out), w) →
       String.length out ≠ 40%nat →
       ∃ err, (value (findCommitSha env basedir tag st)).2 = Some err).
Proof.
  intros H.
  destruct (H Demo.World (Demo.env Demo.token Demo.config Demo.fs) "/build" "v1.0.0"
              (Demo.state Demo.world) (Demo.sha +:+ newline) Demo.world)
    as [err Herr].
  - reflexivity.
  - compute. lia.
  - vm_compute in Herr. discriminate.
Qed.

(** C10: [findCommitSha] checks the length of the trimmed output: a commit
    id it returns is the output without its leading and trailing white
    space, has length 40 and white space at neither end; and a
    40-character sha followed by a newline is accepted. *)
Theorem findCommitSha_trims {W} (env : Env W) basedir tag st err out w :
  cmd_Run env basedir "git" (gitArgs tag) (world st) = ((err, out), w) →
  (∀ sha, value (findCommitSha env basedir tag st) = (sha, None) →
     sha = TrimSpace out
     ∧ String.length sha = 40%nat
     ∧ hasLeadingSpace sha = false ∧ hasTrailingSpace sha = false
     ∧ ∃ pre post, out = pre +:+ sha +:+ post ∧ whitespace pre ∧ whitespace post)
  ∧ (∀ sha, err = None → out = sha +:+ newline →
       String.length sha = 40%nat →
       hasLeadingSpace sha = false → hasTrailingSpace sha = false →
       value (findCommitSha env basedir tag st) = (sha, None)).
Proof.
  intros Hrun. rewrite (findCommitSha_run _ _ _ _ _ _ _ Hrun). unfold value; simpl.
  split.
  - intros sha Hv. destruct err as [e|]; [done|].
    destruct (String.length (TrimSpace out) =? 40)%nat eqn:Hlen; [|done].
    injection Hv as <-. apply Nat.eqb_eq in Hlen.
    repeat split; auto using TrimSpace_no_leading, TrimSpace_no_trailing, TrimSpace_split.
  - intros sha -> -> Hlen Hl Hr.
    rewrite TrimSpace_newline; [|lia|done|done]. by rewrite Hlen.
Qed.

Lemma findCommitSha_trims_witness :
  value (findCommitSha (Demo.env Demo.token Demo.config Demo.fs) "/build" "v1.0.0"
           (Demo.state Demo.world))
  = (Demo.sha, None).
Proof.
  apply (findCommitSha_trims (Demo.env Demo.token Demo.config Demo.fs)
           "/build" "v1.0.0" (Demo.state Demo.world)
           None (Demo.sha +:+ newline) Demo.world); reflexivity.
Defined.

(** ** syncAsset *)

Section SyncAsset.
Context {W : Type} (env : Env W).
Variables (sb : Shipbot.t) (release : RepositoryRelease.t).
Variables (am : AssetMapping) (assets : gmap string ReleaseAsset.t).

Local Abbreviation cfg := (Shipbot.Config sb).

(** The four ways through [syncAsset]. *)
Lemma syncAsset_stat_failed st err w :
  os_Stat env (Source am) (world st) = (Err err, w) →
  syncAsset env sb release am assets st
  = ([EvStat (Source am)], Build_State (globals st) w,
     if Optional am then None else Some (ErrDoingStat (Source am) err)).
Proof.
  intros H. unfold syncAsset. unfold_M. rewrite H. simpl.
  by destruct (Optional am).
Qed.

Lemma syncAsset_existing st fi w existing :
  os_Stat env (Source am) (world st) = (Ok fi, w) →
  assets !! GithubName am = Some existing →
  syncAsset env sb release am assets st
  = ([EvStat (Source am)], Build_State (globals st) w,
     if iv (ReleaseAsset.Size existing) =? Size fi
     then None else Some (ErrSizeDidNotMatch (GithubName am))).
Proof.
  intros H Hex. unfold syncAsset. unfold_M. rewrite H. simpl. rewrite Hex.
  unfold int64. by destruct (_ =? _).
Qed.

Lemma syncAsset_open_failed st fi w err w' :
  os_Stat env (Source am) (world st) = (Ok fi, w) →
  assets !! GithubName am = None →
  os_Open env (Source am) w = (Err err, w') →
  syncAsset env sb release am assets st
  = ([EvStat (Source am); EvOpen (Source am)], Build_State (globals st) w',
     Some (ErrOpening (Source am) err)).
Proof.
  intros H Hex Ho. unfold syncAsset. unfold_M. rewrite H. simpl. rewrite Hex.
  simpl. by rewrite Ho.
Qed.

Lemma syncAsset_upload st fi w f w' r w'' :
  os_Stat env (Source am) (world st) = (Ok fi, w) →
  assets !! GithubName am = None →
  os_Open env (Source am) w = (Ok f, w') →
  Repositories_UploadReleaseAsset env (Shipbot.Client sb) (Owner cfg) (Repo cfg)
    (i64v (RepositoryRelease.ID release)) (GithubName am) f w' = (r, w'') →
  syncAsset env sb release am assets st
  = ([EvStat (Source am); EvOpen (Source am);
      EvUploadReleaseAsset (Owner cfg) (Repo cfg)
        (i64v (RepositoryRelease.ID release)) (GithubName am) f;
      EvClose f],
     Build_State (globals st) w'',
     match r with
     | Err err => Some (ErrUploadingAssets (GithubName am) err)
     | Ok _ => None
     end).
Proof.
  intros H Hex Ho Hu. unfold syncAsset. unfold_M. rewrite H. simpl. rewrite Hex.
  simpl. rewrite Ho. simpl. rewrite Hu. simpl. by destruct r.
Qed.


(** An upload is only attempted for a source that exists and a name the
    release does not have yet; it then goes to [release] under the
    configured name. *)
Lemma syncAsset_uploads st :
  uploads (trace (syncAsset env sb release am assets st)) = []
  ∨ (assets !! GithubName am = None
     ∧ (∃ fi, (os_Stat env (Source am) (world st)).1 = Ok fi)
     ∧ ∃ f, uploads (trace (syncAsset env sb release am assets st))
            = [EvUploadReleaseAsset (Owner cfg) (Repo cfg)
                 (i64v (RepositoryRelease.ID release)) (GithubName am) f]).
Proof.
  destruct (os_Stat env (Source am) (world st)) as [[fi|err] w] eqn:H;
    [|left; by rewrite (syncAsset_stat_failed _ _ _ H)].
  destruct (assets !! GithubName am) as [existing|] eqn:Hex;
    [left; by rewrite (syncAsset_existing _ _ _ _ H Hex)|].
  destruct (os_Open env (Source am) w) as [[f|err] w'] eqn:Ho;
    [|left; by rewrite (syncAsset_open_failed _ _ _ _ _ H Hex Ho)].
  destruct (Repositories_UploadReleaseAsset env (Shipbot.Client sb) (Owner cfg)
              (Repo cfg) (i64v (RepositoryRelease.ID release)) (GithubName am) f w')
    as [r w''] eqn:Hu.
  right. rewrite (syncAsset_upload _ _ _ _ _ _ _ H Hex Ho Hu).
  split; [done|]. split; [by exists fi|]. by exists f.
Qed.

(** If [syncAsset] succeeds, the source is missing (and optional), or the
    name is already on the release, or it has just been uploaded. *)
Lemma syncAsset_success st :
  value (syncAsset env sb release am assets st) = None →
  (∃ err, (os_Stat env (Source am) (world st)).1 = Err err)
  ∨ is_Some (assets !! GithubName am)
  ∨ ∃ f, EvUploadReleaseAsset (Owner cfg) (Repo cfg)
           (i64v (RepositoryRelease.ID release)) (GithubName am) f
         ∈ trace (syncAsset env sb release am assets st).
Proof.
  destruct (os_Stat env (Source am) (world st)) as [[fi|err] w] eqn:H;
    [|left; by exists err].
  destruct (assets !! GithubName am) as [existing|] eqn:Hex;
    [right; left; by exists existing|].
  destruct (os_Open env (Source am) w) as [[f|err] w'] eqn:Ho;
    [|by rewrite (syncAsset_open_failed _ _ _ _ _ H Hex Ho)].
  destruct (Repositories_UploadReleaseAsset env (Shipbot.Client sb) (Owner cfg)
              (Repo cfg) (i64v (RepositoryRelease.ID release)) (GithubName am) f w')
    as [r w''] eqn:Hu.
  rewrite (syncAsset_upload _ _ _ _ _ _ _ H Hex Ho Hu). intros _.
  right; right. exists f. unfold trace; simpl. do 2 right. left.
Qed.
End SyncAsset.

(** C3: when the asset's [githubName] is already on the release and the
    local file exists, [syncAsset] contacts nobody besides the stat (so it
    uploads nothing); it fails with the size-mismatch error
    (AssetConflictError) when the local size differs from the recorded
    one, and succeeds when they are equal. *)
Theorem syncAsset_existing_asset {W} (env : Env W) sb release am assets st
    existing fi w :
  assets !! GithubName am = Some existing →
  os_Stat env (Source am) (world st) = (Ok fi, w) →
  let r := syncAsset env sb release am assets st in
  uploads (trace r) = [] ∧ network_calls (trace r) = []
  ∧ (Size fi ≠ iv (ReleaseAsset.Size existing) →
     value r = Some (ErrSizeDidNotMatch (GithubName am)))
  ∧ (Size fi = iv (ReleaseAsset.Size existing) → value r = None).
Proof.
  intros Hex Hstat r. subst r. rewrite (syncAsset_existing _ _ _ _ _ _ _ _ _ Hstat Hex).
  unfold trace, value; simpl. repeat split; try done.
  - intros Hne. destruct (_ =? _) eqn:E; [|done]. apply Z.eqb_eq in E. congruence.
  - intros ->. by rewrite Z.eqb_refl.
Qed.

Lemma syncAsset_existing_asset_witness :
  value (syncAsset (Demo.env Demo.token Demo.config Demo.fs) Demo.sb
           Demo.release Demo.bin
           {[ "bin-linux-amd64" := ReleaseAsset.mk (Some "bin-linux-amd64") (Some 512) ]}
           (Demo.state Demo.world))
  = Some (ErrSizeDidNotMatch "bin-linux-amd64").
Proof.
  apply (syncAsset_existing_asset (Demo.env Demo.token Demo.config Demo.fs) Demo.sb
           Demo.release Demo.bin _ (Demo.state Demo.world)
           (ReleaseAsset.mk (Some "bin-linux-amd64") (Some 512))
           {| Size := 1024 |} Demo.world).
  - reflexivity.
  - reflexivity.
  - simpl. lia.
Defined.

(** C8: whatever error the stat of the source reports (a permission error
    as much as a missing file), [syncAsset] makes no further call; it
    succeeds when the mapping is optional and returns the stat error
    (the missing-source error) when it is not. *)
Theorem syncAsset_any_stat_error {W} (env : Env W) sb release am assets st err w :
  os_Stat env (Source am) (world st) = (Err err, w) →
  let r := syncAsset env sb release am assets st in
  trace r = [EvStat (Source am)] ∧ network_calls (trace r) = []
  ∧ (Optional am = true → value r = None)
  ∧ (Optional am = false → value r = Some (ErrDoingStat (Source am) err)).
Proof.
  intros Hstat r. subst r. rewrite (syncAsset_stat_failed _ _ _ _ _ _ _ _ Hstat).
  unfold trace, value; simpl. by repeat split; intros ->.
Qed.

Lemma syncAsset_any_stat_error_witness :
  value (syncAsset (Demo.env Demo.token Demo.config Demo.locked) Demo.sb
           Demo.release Demo.bin ∅ (Demo.state Demo.world))
  = Some (ErrDoingStat "dist/bin" (PathError "stat" "dist/bin" EACCES)).
Proof.
  apply (syncAsset_any_stat_error (Demo.env Demo.token Demo.config Demo.locked)
           Demo.sb Demo.release Demo.bin ∅ (Demo.state Demo.world)
           (PathError "stat" "dist/bin" EACCES) Demo.world);
    reflexivity.
Defined.

(** C9: an existing remote asset without a [Size] counts as 0 bytes:
    [syncAsset] uploads nothing, succeeds exactly when the local file is
    empty and fails with the size-mismatch error otherwise. *)
Theorem syncAsset_nil_size {W} (env : Env W) sb release am assets st existing fi w :
  assets !! GithubName am = Some existing →
  ReleaseAsset.Size existing = None →
  os_Stat env (Source am) (world st) = (Ok fi, w) →
  let r := syncAsset env sb release am assets st in
  uploads (trace r) = []
  ∧ (value r = None ↔ Size fi = 0)
  ∧ (Size fi ≠ 0 → value r = Some (ErrSizeDidNotMatch (GithubName am))).
Proof.
  intros Hex Hsize Hstat r. subst r.
  rewrite (syncAsset_existing _ _ _ _ _ _ _ _ _ Hstat Hex), Hsize.
  unfold trace, value; cbn [fst snd iv]. split; [done|].
  destruct (0 =? Size fi) eqn:E.
  - apply Z.eqb_eq in E. split; [split; congruence | congruence].
  - apply Z.eqb_neq in E. split; [split; [done | congruence] | done].
Qed.

Lemma syncAsset_nil_size_witness :
  value (syncAsset (Demo.env Demo.token Demo.config Demo.fs) Demo.sb
           Demo.release Demo.bin
           {[ "bin-linux-amd64" := ReleaseAsset.mk (Some "bin-linux-amd64") None ]}
           (Demo.state Demo.world))
  = Some (ErrSizeDidNotMatch "bin-linux-amd64").
Proof.
  apply (syncAsset_nil_size (Demo.env Demo.token Demo.config Demo.fs) Demo.sb
           Demo.release Demo.bin _ (Demo.state Demo.world)
           (ReleaseAsset.mk (Some "bin-linux-amd64") None)
           {| Size := 1024 |} Demo.world).
  - reflexivity.
  - reflexivity.
  - reflexivity.
  - simpl. lia.
Defined.

(** ** The asset loop *)

Section SyncAssets.
Context {W : Type} (env : Env W).
Variables (sb : Shipbot.t) (found : RepositoryRelease.t).
Variable assetMap : gmap string ReleaseAsset.t.

Local Abbreviation cfg := (Shipbot.Config sb).
Local Abbreviation loop := (syncAssets env sb found assetMap).
Local Abbreviation sync1 := (λ am, syncAsset env sb found am assetMap).

Lemma syncAssets_cons am rest st :
  loop (am :: rest) st
  = let r1 := sync1 am st in
    match value r1 with
    | Some err => (trace r1, final r1, Some err)
    | None =>
        let r2 := loop rest (final r1) in
        (trace r1 ++ trace r2, final r2, value r2)
    end.
Proof.
  simpl. unfold_M. destruct (syncAsset env sb found am assetMap st) as [[t1 st1] [err|]];
    simpl; [by rewrite app_nil_r|].
  by destruct (syncAssets env sb found assetMap rest st1) as [[t2 st2] r2].
Qed.

(** The mappings after a failed one are never looked at. *)
Lemma syncAssets_app l1 l2 st :
  loop (l1 ++ l2) st
  = let r1 := loop l1 st in
    match value r1 with
    | Some err => r1
    | None =>
        let r2 := loop l2 (final r1) in
        (trace r1 ++ trace r2, final r2, value r2)
    end.
Proof.
  revert st. induction l1 as [|am l1 IH]; intros st.
  { simpl. unfold_M. simpl. by destruct (syncAssets env sb found assetMap l2 st) as [[? ?] ?]. }
  rewrite <- app_comm_cons, !syncAssets_cons. simpl.
  destruct (value (syncAsset env sb found am assetMap st)) as [err|]; [done|].
  rewrite IH. simpl.
  destruct (value (syncAssets env sb found assetMap l1 _)) as [err|] eqn:E.
  - unfold value in E. unfold trace, final, value.
    destruct (syncAssets env sb found assetMap l1 _) as [[? ?] ?]. simpl in *.
    by subst.
  - unfold trace, final, value. simpl. by rewrite app_assoc.
Qed.

(** A successful pass leaves, for every mapping, a missing source, a name
    that was on the release already, or an upload under that name. *)
Lemma syncAssets_success mappings st :
  value (loop mappings st) = None →
  ∀ am, am ∈ mappings →
    (∃ st' err, (os_Stat env (Source am) (world st')).1 = Err err)
    ∨ is_Some (assetMap !! GithubName am)
    ∨ ∃ f, EvUploadReleaseAsset (Owner cfg) (Repo cfg)
             (i64v (RepositoryRelease.ID found)) (GithubName am) f
           ∈ trace (loop mappings st).
Proof.
  revert st. induction mappings as [|am0 rest IH]; intros st Hok am Hin.
  { by apply elem_of_nil in Hin. }
  rewrite syncAssets_cons in Hok |- *. simpl in *.
  destruct (value (syncAsset env sb found am0 assetMap st)) as [err|] eqn:E; [done|].
  unfold value in Hok; simpl in Hok. unfold trace at 1; simpl.
  apply elem_of_cons in Hin as [->|Hin].
  - destruct (syncAsset_success env sb found am0 assetMap st E) as [[err H]|[H|[f H]]].
    + left. by exists st, err.
    + by right; left.
    + right; right. exists f. apply elem_of_app. by left.
  - destruct (IH _ Hok am Hin) as [H|[H|[f H]]]; [by left | by right; left |].
    right; right. exists f. apply elem_of_app. by right.
Qed.

(** No upload happens when every source that exists has its name on the
    release. *)
Lemma syncAssets_no_uploads mappings :
  (∀ am, am ∈ mappings →
     ∀ st fi, (os_Stat env (Source am) (world st)).1 = Ok fi →
              is_Some (assetMap !! GithubName am)) →
  ∀ st, uploads (trace (loop mappings st)) = [].
Proof.
  induction mappings as [|am rest IH]; intros Hall st; [done|].
  rewrite syncAssets_cons. simpl.
  assert (H1 : uploads (trace (syncAsset env sb found am assetMap st)) = []).
  { destruct (syncAsset_uploads env sb found am assetMap st)
      as [H|(Hnone & [fi Hfi] & _)]; [done|].
    destruct (Hall am (list_elem_of_here _ _) st fi Hfi) as [a Ha]. congruence. }
  destruct (value (syncAsset env sb found am assetMap st)) as [err|]; [done|].
  unfold trace at 1; simpl. unfold uploads in *.
  rewrite List.filter_app, H1. simpl. apply IH.
  intros am' Hin. apply Hall. by apply list_elem_of_further.
Qed.

(** The loop creates no release, and its uploads all go to [found]. *)
Lemma syncAssets_calls mappings st :
  ∀ ev, ev ∈ trace (loop mappings st) →
    is_create ev = false
    ∧ ∀ owner repo id name f, ev = EvUploadReleaseAsset owner repo id name f →
        owner = Owner cfg ∧ repo = Repo cfg
        ∧ id = i64v (RepositoryRelease.ID found).
Proof.
  revert st. induction mappings as [|am rest IH]; intros st ev Hin.
  { by apply elem_of_nil in Hin. }
  rewrite syncAssets_cons in Hin. simpl in Hin.
  assert (H1 : ev ∈ trace (syncAsset env sb found am assetMap st) →
               is_create ev = false
               ∧ ∀ owner repo id name f, ev = EvUploadReleaseAsset owner repo id name f →
                   owner = Owner cfg ∧ repo = Repo cfg
                   ∧ id = i64v (RepositoryRelease.ID found)).
  { clear Hin. intros Hin.
    destruct (os_Stat env (Source am) (world st)) as [[fi|err] w] eqn:H;
      [|rewrite (syncAsset_stat_failed _ _ _ _ _ _ _ _ H) in Hin; by trace_cases Hin].
    destruct (assetMap !! GithubName am) as [existing|] eqn:Hex;
      [rewrite (syncAsset_existing _ _ _ _ _ _ _ _ _ H Hex) in Hin; by trace_cases Hin|].
    destruct (os_Open env (Source am) w) as [[f|err] w'] eqn:Ho;
      [|rewrite (syncAsset_open_failed _ _ _ _ _ _ _ _ _ _ H Hex Ho) in Hin;
        by trace_cases Hin].
    destruct (Repositories_UploadReleaseAsset env (Shipbot.Client sb) (Owner cfg)
                (Repo cfg) (i64v (RepositoryRelease.ID found)) (GithubName am) f w')
      as [r w''] eqn:Hu.
    rewrite (syncAsset_upload _ _ _ _ _ _ _ _ _ _ _ _ H Hex Ho Hu) in Hin.
    by trace_cases Hin. }
  destruct (value (syncAsset env sb found am assetMap st)) as [err|].
  - unfold trace at 1 in Hin; simpl in Hin. by apply H1.
  - unfold trace at 1 in Hin; simpl in Hin.
    apply elem_of_app in Hin as [Hin|Hin]; [by apply H1 | by apply (IH _ _ Hin)].
Qed.

End SyncAssets.

(** The index built from the asset list has exactly the names of the list. *)
Lemma buildAssetMap_is_Some (assets : list ReleaseAsset.t) (name : string) :
  is_Some (buildAssetMap assets !! name)
  ↔ ∃ a, a ∈ assets ∧ sv (ReleaseAsset.Name a) = name.
Proof.
  unfold buildAssetMap.
  assert (G : ∀ (m : gmap string ReleaseAsset.t),
            is_Some (fold_left (λ assetMap asset,
                       <[sv (ReleaseAsset.Name asset) := asset]> assetMap) assets m !! name)
            ↔ is_Some (m !! name) ∨ ∃ a, a ∈ assets ∧ sv (ReleaseAsset.Name a) = name).
  { induction assets as [|a assets IH]; intros m; simpl.
    - split; [by left|]. intros [H|[a [Ha _]]]; [done|]. by apply elem_of_nil in Ha.
    - rewrite IH. rewrite lookup_insert_is_Some. split.
      + intros [[H|[_ H]]|[a' [Ha' Hn]]].
        * right. exists a. split; [left | done].
        * by left.
        * right. exists a'. split; [by right | done].
      + intros [H|[a' [Ha' Hn]]].
        * destruct (decide (sv (ReleaseAsset.Name a) = name)); [left; by left|].
          left. right. done.
        * apply elem_of_cons in Ha' as [->|Ha']; [left; by left|].
          right. by exists a'. }
  rewrite G. rewrite lookup_empty. split; [|by right].
  intros [H|H]; [by destruct H | done].
Qed.

(** With duplicate names, the asset listed last is the one indexed. *)
Lemma buildAssetMap_last (pre post : list ReleaseAsset.t) (a : ReleaseAsset.t) :
  (∀ a', a' ∈ post → sv (ReleaseAsset.Name a') ≠ sv (ReleaseAsset.Name a)) →
  buildAssetMap (pre ++ a :: post) !! sv (ReleaseAsset.Name a) = Some a.
Proof.
  intros Hpost.
  assert (G : ∀ (m : gmap string ReleaseAsset.t),
            m !! sv (ReleaseAsset.Name a) = Some a →
            fold_left (λ assetMap asset,
              <[sv (ReleaseAsset.Name asset) := asset]> assetMap) post m
              !! sv (ReleaseAsset.Name a) = Some a).
  { induction post as [|a' post IH]; intros m' Hm'; simpl; [done|].
    apply IH.
    - intros a'' Hin. apply Hpost. by right.
    - rewrite lookup_insert_ne; [done|]. apply Hpost. by left. }
  unfold buildAssetMap. rewrite fold_left_app. simpl.
  apply G. apply lookup_insert_eq.
Qed.

(** C5: when the stat of a required ([optional = false]) mapping's source
    fails because the file is missing, [syncAsset] returns the stat error
    (SourceNotFoundError) having made no network call; and in the loop of
    [DoRelease], once the mappings before it have been reconciled, the run
    ends with that error right after this stat: nothing is done for the
    mappings that follow. *)
Theorem syncAssets_required_source_missing {W} (env : Env W) sb found assetMap
    pre am post st err w :
  let before := syncAssets env sb found assetMap pre st in
  let r1 := syncAsset env sb found am assetMap (final before) in
  let r := syncAssets env sb found assetMap (pre ++ am :: post) st in
  Optional am = false →
  value before = None →
  os_Stat env (Source am) (world (final before)) = (Err err, w) →
  value r1 = Some (ErrDoingStat (Source am) err)
  ∧ network_calls (trace r1) = []
  ∧ value r = Some (ErrDoingStat (Source am) err)
  ∧ trace r = trace before ++ [EvStat (Source am)].
Proof.
  intros before r1 r Hopt Hok Hstat. subst r r1.
  rewrite syncAssets_app. cbv zeta. fold before. rewrite Hok.
  rewrite syncAssets_cons. cbv zeta.
  rewrite (syncAsset_stat_failed _ _ _ _ _ _ _ _ Hstat), Hopt.
  by unfold value, trace; simpl.
Qed.

Lemma syncAssets_required_source_missing_witness :
  trace (syncAssets (Demo.env Demo.token Demo.config Demo.fs) Demo.sb Demo.release ∅
           [ Demo.bin;
             {| Source := "dist/doc"; GithubName := "doc"; Optional := false |};
             {| Source := "dist/bin"; GithubName := "bin-copy"; Optional := false |} ]
           (Demo.state Demo.world))
  = [ EvStat "dist/bin"; EvOpen "dist/bin";
      EvUploadReleaseAsset "o" "r" 1 "bin-linux-amd64" {| Name := "dist/bin" |};
      EvClose {| Name := "dist/bin" |};
      EvStat "dist/doc" ].
Proof.
  refine (proj2 (proj2 (proj2
    (syncAssets_required_source_missing
       (Demo.env Demo.token Demo.config Demo.fs) Demo.sb Demo.release ∅
       [Demo.bin]
       {| Source := "dist/doc"; GithubName := "doc"; Optional := false |}
       [{| Source := "dist/bin"; GithubName := "bin-copy"; Optional := false |}]
       (Demo.state Demo.world)
       (PathError "stat" "dist/doc" ENOENT)
       {| Demo.releases := [];
          Demo.assets := [ReleaseAsset.mk (Some "bin-linux-amd64") (Some 1024)];
          Demo.gitResult := (None, Demo.sha +:+ newline) |} _ _ _))));
    reflexivity.
Defined.

(** C4: idempotence of the asset loop.  If a pass over the mappings
    completes without error, the local files do not change (stat answers
    the same whenever it is asked), and the asset list fetched for the
    second pass still has the earlier assets and has every asset uploaded
    by the first pass under its configured name, then the second pass
    performs no upload.  (The size recorded for the uploaded assets plays
    no part in this.) *)
Theorem syncAssets_idempotent {W} (env : Env W) sb found mappings
    assets1 assets2 st1 st2 :
  let run1 := syncAssets env sb found (buildAssetMap assets1) mappings st1 in
  let run2 := syncAssets env sb found (buildAssetMap assets2) mappings st2 in
  (∀ name w w', (os_Stat env name w).1 = (os_Stat env name w').1) →
  value run1 = None →
  (∀ a, a ∈ assets1 → a ∈ assets2) →
  (∀ owner repo id name f,
     EvUploadReleaseAsset owner repo id name f ∈ trace run1 →
     ∃ a, a ∈ assets2 ∧ ReleaseAsset.Name a = Some name) →
  uploads (trace run2) = [].
Proof.
  intros run1 run2 Hfs Hok Hkept Hrec. subst run2.
  apply syncAssets_no_uploads. intros am Hin st fi Hfi.
  apply buildAssetMap_is_Some.
  destruct (syncAssets_success env sb found _ mappings st1 Hok am Hin)
    as [(st' & err & Herr)|[Hsome|[f Hup]]].
  - rewrite (Hfs _ _ (world st)) in Herr. congruence.
  - apply buildAssetMap_is_Some in Hsome as (a & Ha & Hn). exists a. auto.
  - destruct (Hrec _ _ _ _ _ Hup) as (a & Ha & Hn). exists a.
    split; [done|]. by rewrite Hn.
Qed.

Lemma syncAssets_idempotent_witness :
  uploads (trace (syncAssets (Demo.env Demo.token Demo.config Demo.fs) Demo.sb
                    Demo.release
                    (buildAssetMap [ReleaseAsset.mk (Some "bin-linux-amd64") (Some 1024)])
                    [Demo.bin]
                    (Demo.state
                       {| Demo.releases := [];
                          Demo.assets := [ReleaseAsset.mk (Some "bin-linux-amd64") (Some 1024)];
                          Demo.gitResult := (None, Demo.sha +:+ newline) |})))
  = [].
Proof.
  apply (syncAssets_idempotent (Demo.env Demo.token Demo.config Demo.fs) Demo.sb
           Demo.release [Demo.bin] [] _ (Demo.state Demo.world)).
  - reflexivity.
  - reflexivity.
  - intros a Ha. by apply elem_of_nil in Ha.
  - intros owner repo id name f Hin. vm_compute in Hin.
    repeat (apply elem_of_cons in Hin as [Hin|Hin]; simplify_eq);
      [|by apply elem_of_nil in Hin].
    eexists. split; [apply list_elem_of_here | reflexivity].
Defined.

(** The first pass of that example did upload the file, and left the
    registry in the state the second pass starts from. *)
Example syncAssets_first_pass :
  let run1 := syncAssets (Demo.env Demo.token Demo.config Demo.fs) Demo.sb
                Demo.release (buildAssetMap []) [Demo.bin] (Demo.state Demo.world) in
  value run1 = None
  ∧ uploads (trace run1)
    = [EvUploadReleaseAsset "o" "r" 1 "bin-linux-amd64" {| Name := "dist/bin" |}]
  ∧ Demo.assets (world (final run1))
    = [ReleaseAsset.mk (Some "bin-linux-amd64") (Some 1024)].
Proof. repeat split. Qed.

(** ** DoRelease *)

Lemma findRelease_app (tag : string) (l1 l2 : list RepositoryRelease.t) :
  (∀ rel, rel ∈ l2 → sv (RepositoryRelease.TagName rel) ≠ tag) →
  findRelease tag (l1 ++ l2) = findRelease tag l1.
Proof.
  unfold findRelease. rewrite fold_left_app.
  generalize (fold_left
    (λ found release,
       if String.eqb (sv (RepositoryRelease.TagName release)) tag
       then Some release else found) l1 None).
  induction l2 as [|rel l2 IH]; intros acc Hno; simpl; [done|].
  rewrite IH; [|intros r Hr; apply Hno; by right].
  destruct (String.eqb_spec (sv (RepositoryRelease.TagName rel)) tag) as [E|E]; [|done].
  exfalso. apply (Hno rel); [by left | done].
Qed.

Lemma findRelease_none (tag : string) (releases : list RepositoryRelease.t) :
  (∀ rel, rel ∈ releases → sv (RepositoryRelease.TagName rel) ≠ tag) →
  findRelease tag releases = None.
Proof. intros H. exact (findRelease_app tag [] releases H). Qed.

(** The last release with the tag is the one found. *)
Lemma findRelease_last (tag : string) pre rel post :
  sv (RepositoryRelease.TagName rel) = tag →
  (∀ rel', rel' ∈ post → sv (RepositoryRelease.TagName rel') ≠ tag) →
  findRelease tag (pre ++ rel :: post) = Some rel.
Proof.
  intros Htag Hpost.
  change (pre ++ rel :: post) with (pre ++ [rel] ++ post).
  rewrite app_assoc, findRelease_app; [|done].
  unfold findRelease. rewrite fold_left_app. simpl.
  by rewrite Htag, String.eqb_refl.
Qed.

Section DoReleaseFacts.
Context {W : Type} (env : Env W).
Variables (sb : Shipbot.t) (buildDir : string).

Local Abbreviation cfg := (Shipbot.Config sb).
Local Abbreviation client := (Shipbot.Client sb).

Lemma ensureRelease_found st releases w1 found :
  Repositories_ListReleases env client (Owner cfg) (Repo cfg) (world st)
  = (Ok releases, w1) →
  findRelease (tag (globals st)) releases = Some found →
  ensureRelease env sb buildDir st
  = ([EvListReleases (Owner cfg) (Repo cfg)], Build_State (globals st) w1, Ok found).
Proof.
  intros Hl Hf. unfold ensureRelease. unfold_M. rewrite Hl. simpl. by rewrite Hf.
Qed.

Lemma ensureRelease_at_most_one st :
  (length (creations (trace (ensureRelease env sb buildDir st))) ≤ 1)%nat.
Proof.
  unfold ensureRelease. unfold_M.
  destruct (Repositories_ListReleases env client (Owner cfg) (Repo cfg) (world st))
    as [[releases|err] w1]; simpl; [|lia].
  destruct (findRelease (tag (globals st)) releases); simpl; [lia|].
  destruct (String.eqb (target (globals st)) "").
  - pose proof (findCommitSha_trace env buildDir (tag (globals st))
                  (Build_State (globals st) w1)) as Ht.
    destruct (findCommitSha env buildDir (tag (globals st))
                (Build_State (globals st) w1)) as [[tg sg] [sha [err|]]];
      unfold trace in Ht; simpl in Ht; subst tg; simpl; [lia|].
    destruct (Repositories_CreateRelease _ _ _ _ _ _) as [[f|err] w3]; simpl; lia.
  - simpl.
    destruct (Repositories_CreateRelease _ _ _ _ _ _) as [[f|err] w3]; simpl; lia.
Qed.

Lemma ensureRelease_creates st releases w1 commit :
  Repositories_ListReleases env client (Owner cfg) (Repo cfg) (world st)
  = (Ok releases, w1) →
  findRelease (tag (globals st)) releases = None →
  (target (globals st) ≠ "" ∧ commit = target (globals st))
  ∨ (target (globals st) = ""
     ∧ value (findCommitSha env buildDir (tag (globals st))
                (Build_State (globals st) w1)) = (commit, None)) →
  creations (trace (ensureRelease env sb buildDir st))
  = [EvCreateRelease (Owner cfg) (Repo cfg) (draft (tag (globals st)) commit)].
Proof.
  intros Hl Hf Hc. unfold ensureRelease. unfold_M. rewrite Hl. simpl. rewrite Hf. simpl.
  destruct Hc as [[Hne ->]|[He Hsha]].
  - apply String.eqb_neq in Hne. rewrite Hne. simpl.
    by destruct (Repositories_CreateRelease _ _ _ _ _ _) as [[f|err] w3].
  - rewrite He. simpl.
    pose proof (findCommitSha_trace env buildDir (tag (globals st))
                  (Build_State (globals st) w1)) as Ht.
    destruct (findCommitSha env buildDir (tag (globals st)) _) as [[tg sg] [sha err]].
    unfold trace in Ht; simpl in Ht, Hsha. simplify_eq. simpl.
    by destruct (Repositories_CreateRelease _ _ _ _ _ _) as [[f|err] w3].
Qed.

(** After [ensureRelease], [DoRelease] lists the assets of the release it
    was given and runs the loop; it creates nothing more. *)
Lemma DoRelease_unfold st :
  DoRelease env sb buildDir st
  = let r0 := ensureRelease env sb buildDir st in
    match value r0 with
    | Err err => (trace r0, final r0, Some err)
    | Ok found =>
        let id := i64v (RepositoryRelease.ID found) in
        let '(r, w) := Repositories_ListReleaseAssets env client
                         (Owner cfg) (Repo cfg) id (world (final r0)) in
        let st1 := Build_State (globals (final r0)) w in
        match r with
        | Err err =>
            (trace r0 ++ [EvListReleaseAssets (Owner cfg) (Repo cfg) id], st1,
             Some (ErrListingAssets err))
        | Ok assets =>
            let r2 := syncAssets env sb found (buildAssetMap assets) (Assets cfg) st1 in
            (trace r0 ++ EvListReleaseAssets (Owner cfg) (Repo cfg) id :: trace r2,
             final r2, value r2)
        end
    end.
Proof.
  unfold DoRelease. unfold_M.
  destruct (ensureRelease env sb buildDir st) as [[t0 st0] [found|err]]; simpl;
    [|by rewrite app_nil_r].
  destruct (Repositories_ListReleaseAssets _ _ _ _ _ _) as [[assets|err] w]; simpl; [|done].
  by destruct (syncAssets env sb found _ _ _) as [[t2 st2] r2].
Qed.

Lemma DoRelease_creations st :
  creations (trace (DoRelease env sb buildDir st))
  = creations (trace (ensureRelease env sb buildDir st)).
Proof.
  rewrite DoRelease_unfold. cbv zeta.
  destruct (value (ensureRelease env sb buildDir st)) as [found|err]; [|done].
  destruct (Repositories_ListReleaseAssets _ _ _ _ _ _) as [[assets|err] w];
    unfold trace at 1; cbn [fst snd]; unfold creations; rewrite List.filter_app;
    [|simpl; by rewrite app_nil_r].
  set (r2 := syncAssets env sb found _ _ _). simpl.
  rewrite (filter_none is_create (trace r2)); [by rewrite app_nil_r|].
  intros ev Hin. by apply syncAssets_calls in Hin as [-> _].
Qed.
End DoReleaseFacts.

(** In every run at most one release is created. *)
Lemma DoRelease_at_most_one_creation {W} (env : Env W) sb buildDir st :
  (length (creations (trace (DoRelease env sb buildDir st))) ≤ 1)%nat.
Proof. rewrite DoRelease_creations. apply ensureRelease_at_most_one. Qed.

(** When some release has the tag, the one found is the last of them. *)
Lemma findRelease_some (tag : string) (releases : list RepositoryRelease.t) :
  (∃ rel, rel ∈ releases ∧ sv (RepositoryRelease.TagName rel) = tag) →
  ∃ pre rel post,
    releases = pre ++ rel :: post
    ∧ sv (RepositoryRelease.TagName rel) = tag
    ∧ (∀ rel', rel' ∈ post → sv (RepositoryRelease.TagName rel') ≠ tag)
    ∧ findRelease tag releases = Some rel.
Proof.
  induction releases as [|x l IH] using rev_ind; intros (rel & Hin & Htag).
  { by apply elem_of_nil in Hin. }
  destruct (decide (sv (RepositoryRelease.TagName x) = tag)) as [Hx|Hx].
  - exists l, x, []. repeat split; [done | by intros ? ?%elem_of_nil |].
    apply findRelease_last; [done | by intros ? ?%elem_of_nil].
  - apply elem_of_app in Hin as [Hin|Hin%list_elem_of_singleton]; [|congruence].
    destruct IH as (pre & rel' & post & -> & Ht & Hpost & Hf); [by exists rel|].
    assert (Hpost' : ∀ r, r ∈ post ++ [x] → sv (RepositoryRelease.TagName r) ≠ tag).
    { intros r [Hr|Hr%list_elem_of_singleton]%elem_of_app; [by apply Hpost | by subst]. }
    exists pre, rel', (post ++ [x]). rewrite <- app_assoc. simpl.
    repeat split; [done | done |]. by apply findRelease_last.
Qed.

(** C1: when the fetched release list has no release with the tag, and the
    target is given explicitly or the commit id is resolved from the tag,
    the creation calls of the run are exactly one call, for a draft
    release whose tagName and name are the tag, whose body is
    "Release <tag> (draft)" and whose targetCommitish is the explicit
    target if there is one and the resolved commit id otherwise. *)
Theorem DoRelease_creates_draft {W} (env : Env W) sb buildDir st releases w1 commit :
  let cfg := Shipbot.Config sb in
  let tag := tag (globals st) in
  Repositories_ListReleases env (Shipbot.Client sb) (Owner cfg) (Repo cfg) (world st)
  = (Ok releases, w1) →
  (∀ rel, rel ∈ releases → sv (RepositoryRelease.TagName rel) ≠ tag) →
  (target (globals st) ≠ "" ∧ commit = target (globals st))
  ∨ (target (globals st) = ""
     ∧ value (findCommitSha env buildDir tag (Build_State (globals st) w1))
       = (commit, None)) →
  creations (trace (DoRelease env sb buildDir st))
  = [EvCreateRelease (Owner cfg) (Repo cfg)
       {| RepositoryRelease.ID := None;
          RepositoryRelease.TagName := Some tag;
          RepositoryRelease.TargetCommitish := Some commit;
          RepositoryRelease.Name := Some tag;
          RepositoryRelease.Body := Some ("Release " +:+ tag +:+ " (draft)");
          RepositoryRelease.Draft := Some true |}].
Proof.
  intros cfg tag0 Hl Hno Hc. rewrite DoRelease_creations.
  apply (ensureRelease_creates env sb buildDir st releases w1 commit Hl); [|done].
  by apply findRelease_none.
Qed.

Lemma DoRelease_creates_draft_witness :
  creations (trace (DoRelease (Demo.env Demo.token Demo.config Demo.fs) Demo.sb
                      "/build" (Demo.state Demo.world)))
  = [EvCreateRelease "o" "r"
       (RepositoryRelease.mk None (Some "v1.0.0") (Some Demo.sha) (Some "v1.0.0")
          (Some "Release v1.0.0 (draft)") (Some true))].
Proof.
  apply (DoRelease_creates_draft (Demo.env Demo.token Demo.config Demo.fs) Demo.sb
           "/build" (Demo.state Demo.world) [] Demo.world Demo.sha).
  - reflexivity.
  - intros rel Hin. by apply elem_of_nil in Hin.
  - right. split; reflexivity.
Defined.

(** C2: when some release of the fetched list has the tag, the run makes
    no creation call and goes on with the last such release in list order:
    that release is the one found, the next call lists its assets, and
    every upload of the run is attached to it. *)
Theorem DoRelease_existing_release {W} (env : Env W) sb buildDir st releases w1 :
  let cfg := Shipbot.Config sb in
  let tag := tag (globals st) in
  let r := DoRelease env sb buildDir st in
  Repositories_ListReleases env (Shipbot.Client sb) (Owner cfg) (Repo cfg) (world st)
  = (Ok releases, w1) →
  (∃ rel, rel ∈ releases ∧ sv (RepositoryRelease.TagName rel) = tag) →
  creations (trace r) = []
  ∧ ∃ pre rel post,
      releases = pre ++ rel :: post
      ∧ sv (RepositoryRelease.TagName rel) = tag
      ∧ (∀ rel', rel' ∈ post → sv (RepositoryRelease.TagName rel') ≠ tag)
      ∧ findRelease tag releases = Some rel
      ∧ ∃ t, trace r
             = EvListReleases (Owner cfg) (Repo cfg)
               :: EvListReleaseAssets (Owner cfg) (Repo cfg)
                    (i64v (RepositoryRelease.ID rel))
               :: t
           ∧ ∀ owner repo id name f,
               EvUploadReleaseAsset owner repo id name f ∈ t →
               id = i64v (RepositoryRelease.ID rel).
Proof.
  intros cfg tag0 r Hl Hex. subst r.
  destruct (findRelease_some tag0 releases Hex) as (pre & rel & post & E & Ht & Hpost & Hf).
  pose proof (ensureRelease_found env sb buildDir st releases w1 rel Hl Hf) as He.
  split.
  { rewrite DoRelease_creations, He. done. }
  exists pre, rel, post. repeat split; try done.
  rewrite DoRelease_unfold. cbv zeta. rewrite He. unfold value, final, trace; cbn [fst snd].
  destruct (Repositories_ListReleaseAssets _ _ _ _ _ _) as [[assets|err] w]; cbn [fst snd].
  - eexists. split; [reflexivity|]. intros owner repo id name f Hin.
    destruct (syncAssets_calls _ _ _ _ _ _ _ Hin) as [_ H].
    by destruct (H _ _ _ _ _ eq_refl) as (_ & _ & ?).
  - exists []. split; [done|]. by intros ? ? ? ? ? ?%elem_of_nil.
Qed.

Lemma DoRelease_existing_release_witness :
  creations
    (trace (DoRelease (Demo.env Demo.token Demo.config Demo.fs) Demo.sb "/build"
              (Demo.state Demo.tagged)))
  = [].
Proof.
  apply (DoRelease_existing_release (Demo.env Demo.token Demo.config Demo.fs) Demo.sb
           "/build" (Demo.state Demo.tagged) (Demo.releases Demo.tagged) Demo.tagged).
  - reflexivity.
  - eexists. split; [apply list_elem_of_here | reflexivity].
Defined.

(** With the tag on the first and the third release, the assets listed and
    the upload are those of the third. *)
Example DoRelease_last_duplicate :
  network_calls
    (trace (DoRelease (Demo.env Demo.token Demo.config Demo.fs) Demo.sb "/build"
              (Demo.state Demo.tagged)))
  = [ EvListReleases "o" "r"; EvListReleaseAssets "o" "r" 9;
      EvUploadReleaseAsset "o" "r" 9 "bin-linux-amd64" {| Name := "dist/bin" |} ].
Proof. reflexivity. Qed.

(** ** main *)

Section MainFacts.
Context {W : Type} (env : Env W).

Lemma newClient_token g :
  githubAccessToken g ≠ "" → newClient g = Some (OAuth2Client (githubAccessToken g)).
Proof. intros H%String.eqb_neq. unfold newClient. by rewrite H. Qed.

Lemma newClient_basic g :
  githubAccessToken g = "" → githubUser g ≠ "" → githubPassword g ≠ "" →
  newClient g = Some (BasicAuthClient (githubUser g) (githubPassword g)).
Proof.
  intros Ht Hu%String.eqb_neq Hp%String.eqb_neq. unfold newClient.
  by rewrite Ht, Hu, Hp.
Qed.

Lemma newClient_none g :
  githubAccessToken g = "" → githubUser g = "" ∨ githubPassword g = "" →
  newClient g = None.
Proof.
  intros Ht [Hu|Hp]; unfold newClient; rewrite Ht; simpl.
  - by rewrite Hu.
  - rewrite Hp. simpl. by rewrite andb_false_r.
Qed.

(** Once the configuration is loaded, [main] builds the client and hands
    over to [DoRelease]. *)
Lemma main_loaded cmd w cwd w1 configBytes w2 config :
  os_Getwd env w = (Ok cwd, w1) →
  tag (parsed env cmd) ≠ "" →
  configFile (parsed env cmd) ≠ "" →
  ioutil_ReadFile env (configFile (parsed env cmd)) w1 = (Ok configBytes, w2) →
  yaml_Unmarshal env configBytes = Ok config →
  run env cmd w
  = match newClient (parsed env cmd) with
    | None =>
        ([EvGetwd; EvReadFile (configFile (parsed env cmd))],
         Build_State (parsed env cmd) w2, Fatalf FatalNoCredentials)
    | Some client =>
        let d := DoRelease env (Shipbot.mk client config)
                   (default cwd (flag_builddir cmd))
                   (Build_State (parsed env cmd) w2) in
        (EvGetwd :: EvReadFile (configFile (parsed env cmd)) :: trace d, final d,
         match value d with
         | Some err => Fatalf (FatalUnexpected err)
         | None => Exit0
         end)
    end.
Proof.
  intros Hwd Htag%String.eqb_neq Hcfg%String.eqb_neq Hread Hyaml.
  unfold run, main. unfold_M. simpl. rewrite Hwd. simpl.
  fold (parsed env cmd). simpl in Htag, Hcfg, Hread. rewrite Htag. simpl. rewrite Hcfg. simpl.
  rewrite Hread. simpl. rewrite Hyaml. simpl. fold (parsed env cmd).
  destruct (newClient (parsed env cmd)) as [client|]; simpl; [|done].
  by destruct (DoRelease env _ _ _) as [[td sd] [err|]]; simpl; rewrite app_nil_r.
Qed.

(** Without credentials no run gets as far as the network. *)
Lemma main_no_credentials cmd w :
  newClient (parsed env cmd) = None →
  (∃ msg, value (run env cmd w) = Fatalf msg)
  ∧ network_calls (trace (run env cmd w)) = [].
Proof.
  intros Hnone. unfold run, main. unfold_M. simpl.
  destruct (os_Getwd env w) as [[cwd|err] w1]; simpl; [|eauto].
  fold (parsed env cmd).
  destruct (String.eqb (default "" (flag_tag cmd)) ""); simpl; [eauto|].
  destruct (String.eqb (default "" (flag_config cmd)) ""); simpl; [eauto|].
  destruct (ioutil_ReadFile env _ w1) as [[configBytes|err] w2]; simpl; [|eauto].
  destruct (yaml_Unmarshal env configBytes) as [config|err]; simpl; [|eauto].
  fold (parsed env cmd). rewrite Hnone. simpl. eauto.
Qed.
End MainFacts.

(** C7, as stated, fails: with the access token and the username and
    password all set (two resolvable modes, not exactly one), the process
    is not stopped; it uses the token and goes on to the network. *)
Lemma main_accepts_both_credential_modes :
  ¬ (∀ W (env : Env W) cmd w,
       let token := os_Getenv env "GITHUB_TOKEN" in
       let user := os_Getenv env "GITHUB_USER" in
       let password := os_Getenv env "GITHUB_PASSWORD" in
       ¬ ((token ≠ "" ∧ ¬ (user ≠ "" ∧ password ≠ ""))
          ∨ (token = "" ∧ user ≠ "" ∧ password ≠ "")) →
       (∃ msg, value (run env cmd w) = Fatalf msg)
       ∧ network_calls (trace (run env cmd w)) = []).
Proof.
  intros H.
  destruct (H Demo.World
              (Demo.env [("GITHUB_TOKEN", "t0k3n"); ("GITHUB_USER", "u");
                         ("GITHUB_PASSWORD", "p")] Demo.config Demo.fs)
              Demo.cmdline Demo.world) as [[msg Hmsg] _].
  - simpl. intros [[_ Hn]|[Ht _]]; [|done]. apply Hn. done.
  - vm_compute in Hmsg. discriminate.
Qed.

(** C7, as amended: when neither credential mode is resolvable (no access
    token, and no username or no password) the process exits with a fatal
    error and has made no network call; when the access token is set it is
    used, whether or not a username and password are set too; with no
    token but both a username and a password, these are used.  In the last
    two cases the run, once its configuration is loaded, is [DoRelease]
    with that client. *)
Theorem main_credentials {W} (env : Env W) cmd w :
  let token := os_Getenv env "GITHUB_TOKEN" in
  let user := os_Getenv env "GITHUB_USER" in
  let password := os_Getenv env "GITHUB_PASSWORD" in
  let r := run env cmd w in
  (token = "" → user = "" ∨ password = "" →
   (∃ msg, value r = Fatalf msg) ∧ network_calls (trace r) = [])
  ∧ ∀ cwd w1 configBytes w2 config client,
      os_Getwd env w = (Ok cwd, w1) →
      tag (parsed env cmd) ≠ "" →
      configFile (parsed env cmd) ≠ "" →
      ioutil_ReadFile env (configFile (parsed env cmd)) w1 = (Ok configBytes, w2) →
      yaml_Unmarshal env configBytes = Ok config →
      (token ≠ "" ∧ client = OAuth2Client token)
      ∨ (token = "" ∧ user ≠ "" ∧ password ≠ ""
         ∧ client = BasicAuthClient user password) →
      let d := DoRelease env (Shipbot.mk client config)
                 (default cwd (flag_builddir cmd))
                 (Build_State (parsed env cmd) w2) in
      trace r = EvGetwd :: EvReadFile (configFile (parsed env cmd)) :: trace d
      ∧ value r = match value d with
                  | Some err => Fatalf (FatalUnexpected err)
                  | None => Exit0
                  end.
Proof.
  intros token user password r. split.
  - intros Ht Hup. apply main_no_credentials. by apply newClient_none.
  - intros cwd w1 configBytes w2 config client Hwd Htag Hcfg Hread Hyaml Hmode d.
    subst r d. rewrite (main_loaded env cmd w cwd w1 configBytes w2 config) by done.
    assert (Hc : newClient (parsed env cmd) = Some client).
    { destruct Hmode as [[Ht ->]|(Ht & Hu & Hp & ->)].
      - by apply (newClient_token (parsed env cmd)).
      - by apply (newClient_basic (parsed env cmd)). }
    by rewrite Hc.
Qed.

Lemma main_credentials_witness :
  ∃ msg,
    value (run (Demo.env [("GITHUB_USER", "u")] Demo.config Demo.fs)
             Demo.cmdline Demo.world) = Fatalf msg.
Proof.
  apply (main_credentials (Demo.env [("GITHUB_USER", "u")] Demo.config Demo.fs)
           Demo.cmdline Demo.world).
  - reflexivity.
  - right. reflexivity.
Defined.

(** With both modes set the token client does the work. *)
Example main_prefers_token :
  let env := Demo.env [("GITHUB_TOKEN", "t0k3n"); ("GITHUB_USER", "u");
                       ("GITHUB_PASSWORD", "p")] Demo.config Demo.fs in
  newClient (parsed env Demo.cmdline) = Some (OAuth2Client "t0k3n")
  ∧ value (run env Demo.cmdline Demo.world) = Exit0.
Proof. split; reflexivity. Qed.

(** * Further properties *)

(** ** White space around the sha *)

Lemma asciiSpace_low (c : ascii) : asciiSpace c = true → (byte c < 128)%N.
Proof.
  unfold asciiSpace. intros H.
  destruct (N.ltb_spec (byte c) 128) as [Hlt|Hge]; [done|].
  destruct (byte c) as [|p]; [lia|].
  do 8 (destruct p as [p|p|]; try discriminate; try lia).
Qed.

Lemma asciiSpace_high (c : ascii) : (128 ≤ byte c)%N → asciiSpace c = false.
Proof.
  intros H. destruct (asciiSpace c) eqn:E; [|done].
  apply asciiSpace_low in E. lia.
Qed.

(** A byte starts at most one kind of white-space rune, read from either
    end. *)
Lemma space2_not_ascii c1 c2 : space2 c1 c2 = true → asciiSpace c1 = false.
Proof.
  unfold space2. intros [H _]%andb_true_iff. apply N.eqb_eq in H.
  apply asciiSpace_high. lia.
Qed.

Lemma space3_first c1 c2 c3 :
  space3 c1 c2 c3 = true → (225 ≤ byte c1 ≤ 227)%N.
Proof.
  unfold space3. intros H.
  repeat (apply orb_true_iff in H as [H|H]);
    repeat (apply andb_true_iff in H as [H ?]); apply N.eqb_eq in H; lia.
Qed.

Lemma space3_not_ascii c1 c2 c3 :
  space3 c1 c2 c3 = true → asciiSpace c1 = false ∧ space2 c1 c2 = false.
Proof.
  intros H%space3_first. split; [apply asciiSpace_high; lia|].
  unfold space2. destruct (N.eqb_spec (byte c1) 194); [lia | done].
Qed.

Lemma space2_last_not_ascii c1 c2 : space2 c2 c1 = true → asciiSpace c1 = false.
Proof.
  unfold space2. intros [_ H]%andb_true_iff.
  apply asciiSpace_high.
  apply orb_true_iff in H as [H|H]; apply N.eqb_eq in H; lia.
Qed.

Lemma space3_last_not_ascii c1 c2 c3 :
  space3 c3 c2 c1 = true → asciiSpace c1 = false ∧ space2 c2 c1 = false.
Proof.
  unfold space3. intros H.
  assert (Hb : (128 ≤ byte c1)%N ∧ byte c2 ≠ 194%N).
  { repeat match goal with
           | E : (_ || _) = true |- _ => apply orb_true_iff in E as [E|E]
           | E : (_ && _) = true |- _ => apply andb_true_iff in E as [? ?]
           | E : (_ =? _)%N = true |- _ => apply N.eqb_eq in E
           | E : (_ <=? _)%N = true |- _ => apply N.leb_le in E
           end; lia. }
  destruct Hb as [H1 H2]. split; [by apply asciiSpace_high|].
  unfold space2. destruct (N.eqb_spec (byte c2) 194); [done | done].
Qed.

Section TrimSpaces.
Variable sp1 : ascii → bool.
Variable sp2 : ascii → ascii → bool.
Variable sp3 : ascii → ascii → ascii → bool.
Hypothesis sp2_sp1 : ∀ c1 c2, sp2 c1 c2 = true → sp1 c1 = false.
Hypothesis sp3_sp1 : ∀ c1 c2 c3,
  sp3 c1 c2 c3 = true → sp1 c1 = false ∧ sp2 c1 c2 = false.

(** A run of white space in front is removed whole. *)
Lemma trimStart_spaces (pre l : list ascii) :
  spaces sp1 sp2 sp3 pre →
  trimStart sp1 sp2 sp3 (pre ++ l) = trimStart sp1 sp2 sp3 l.
Proof.
  induction 1 as [|c1 p H1 _ IH|c1 c2 p H2 _ IH|c1 c2 c3 p H3 _ IH]; [done|..].
  - simpl. by rewrite H1.
  - simpl. by rewrite (sp2_sp1 _ _ H2), H2.
  - simpl. destruct (sp3_sp1 _ _ _ H3) as [-> ->]. by rewrite H3.
Qed.
End TrimSpaces.

Lemma trimLeft_spaces (pre l : list ascii) :
  spaces asciiSpace space2 space3 pre → trimLeft (pre ++ l) = trimLeft l.
Proof.
  apply trimStart_spaces; [apply space2_not_ascii | apply space3_not_ascii].
Qed.

Lemma trimRight_spaces (l post : list ascii) :
  spaces asciiSpace space2 space3 post → trimRight (l ++ post) = trimRight l.
Proof.
  intros H%spaces_rev. unfold trimRight. rewrite rev_app_distr.
  f_equal. apply trimStart_spaces; [| |exact H].
  - intros c1 c2. apply space2_last_not_ascii.
  - intros c1 c2 c3. apply space3_last_not_ascii.
Qed.

(** White space on both sides of a string that has none at its ends (and
    at least three bytes) is all that [TrimSpace] removes. *)
Lemma TrimSpace_padded (pre sha post : string) :
  whitespace pre → whitespace post →
  (3 ≤ String.length sha)%nat →
  hasLeadingSpace sha = false → hasTrailingSpace sha = false →
  TrimSpace (pre +:+ sha +:+ post) = sha.
Proof.
  unfold whitespace, hasLeadingSpace, hasTrailingSpace, TrimSpace.
  intros Hpre Hpost Hn Hl%negb_false_iff%Nat.eqb_eq Hr%negb_false_iff%Nat.eqb_eq.
  rewrite <- length_list_ascii_of_string in Hn.
  rewrite !list_ascii_of_string_app, trimLeft_spaces by done.
  unfold trimLeft. rewrite trimStart_id by by apply width_app_r.
  rewrite trimRight_spaces by done.
  unfold trimRight. rewrite trimStart_id by done.
  rewrite rev_involutive. apply string_of_list_ascii_of_string.
Qed.

Lemma TrimSpace_blank (out : string) : whitespace out → TrimSpace out = "".
Proof.
  unfold whitespace, TrimSpace. intros H.
  rewrite <- (app_nil_r (list_ascii_of_string out)), trimLeft_spaces by done.
  reflexivity.
Qed.

(** X1: when the [git] subprocess fails, [findCommitSha] returns the empty
    string and the error that wraps the tag and the cause, whatever the
    subprocess printed (a well-formed sha included); it has run that one
    subprocess and nothing else. *)
Theorem findCommitSha_run_failed {W} (env : Env W) basedir tag st err out w :
  cmd_Run env basedir "git" (gitArgs tag) (world st) = ((Some err, out), w) →
  let r := findCommitSha env basedir tag st in
  value r = ("", Some (ErrGettingGitSha tag err))
  ∧ trace r = [EvRun basedir "git" ["rev-list"; "-n"; "1"; tag]].
Proof.
  intros Hrun r. subst r. by rewrite (findCommitSha_run _ _ _ _ _ _ _ Hrun).
Qed.

Lemma findCommitSha_run_failed_witness :
  value (findCommitSha (Demo.env Demo.token Demo.config Demo.fs) "/build" "v1.0.0"
           (Demo.state Faulty.gitFailed))
  = ("", Some (ErrGettingGitSha "v1.0.0" (ExitError 128))).
Proof.
  apply (findCommitSha_run_failed (Demo.env Demo.token Demo.config Demo.fs)
           "/build" "v1.0.0" (Demo.state Faulty.gitFailed) (ExitError 128)
           (Demo.sha +:+ newline) Faulty.gitFailed).
  reflexivity.
Defined.

(** X2: any amount of white space before and after a 40-byte commit id is
    ignored: the id is returned as it is. *)
Theorem findCommitSha_ignores_padding {W} (env : Env W) basedir tag st
    pre sha post w :
  cmd_Run env basedir "git" (gitArgs tag) (world st)
  = ((None, pre +:+ sha +:+ post), w) →
  whitespace pre → whitespace post →
  String.length sha = 40%nat →
  hasLeadingSpace sha = false → hasTrailingSpace sha = false →
  value (findCommitSha env basedir tag st) = (sha, None).
Proof.
  intros Hrun Hpre Hpost Hlen Hl Hr.
  rewrite (findCommitSha_run _ _ _ _ _ _ _ Hrun). unfold value; simpl.
  rewrite TrimSpace_padded; [|done|done|lia|done|done]. by rewrite Hlen.
Qed.

Lemma findCommitSha_ignores_padding_witness :
  value (findCommitSha (Demo.env Demo.token Demo.config Demo.fs) "/build" "v1.0.0"
           (Demo.state Faulty.gitPadded))
  = (Demo.sha, None).
Proof.
  apply (findCommitSha_ignores_padding (Demo.env Demo.token Demo.config Demo.fs)
           "/build" "v1.0.0" (Demo.state Faulty.gitPadded)
           "  " Demo.sha (String (ascii_of_N 13) (String (ascii_of_N 10) ""))
           Faulty.gitPadded).
  - reflexivity.
  - apply spaces_1; [reflexivity|]. apply spaces_1; [reflexivity|]. apply spaces_nil.
  - apply spaces_1; [reflexivity|]. apply spaces_1; [reflexivity|]. apply spaces_nil.
  - reflexivity.
  - reflexivity.
  - reflexivity.
Defined.

(** X3: an output made of white space only is trimmed to nothing and
    rejected with the unexpected-length error, although the subprocess
    succeeded. *)
Theorem findCommitSha_blank_output {W} (env : Env W) basedir tag st out w :
  cmd_Run env basedir "git" (gitArgs tag) (world st) = ((None, out), w) →
  whitespace out →
  value (findCommitSha env basedir tag st) = ("", Some (ErrShaLength "")).
Proof.
  intros Hrun Hblank. rewrite (findCommitSha_run _ _ _ _ _ _ _ Hrun).
  by rewrite (TrimSpace_blank _ Hblank).
Qed.

Lemma findCommitSha_blank_output_witness :
  value (findCommitSha (Demo.env Demo.token Demo.config Demo.fs) "/build" "v1.0.0"
           (Demo.state Faulty.gitBlank))
  = ("", Some (ErrShaLength "")).
Proof.
  apply (findCommitSha_blank_output (Demo.env Demo.token Demo.config Demo.fs)
           "/build" "v1.0.0" (Demo.state Faulty.gitBlank) (" " +:+ newline)
           Faulty.gitBlank).
  - reflexivity.
  - apply spaces_1; [reflexivity|]. apply spaces_1; [reflexivity|]. apply spaces_nil.
Defined.

(** ** The stages of DoRelease *)

Lemma findCommitSha_error_empty {W} (env : Env W) basedir tag st sha err :
  value (findCommitSha env basedir tag st) = (sha, Some err) → sha = "".
Proof.
  destruct (cmd_Run env basedir "git" (gitArgs tag) (world st)) as [[e out] w] eqn:H.
  rewrite (findCommitSha_run _ _ _ _ _ _ _ H). unfold value; simpl.
  destruct e; [congruence|]. destruct (_ =? _)%nat; congruence.
Qed.

Lemma findCommitSha_globals {W} (env : Env W) basedir tag st :
  globals (final (findCommitSha env basedir tag st)) = globals st.
Proof.
  destruct (cmd_Run env basedir "git" (gitArgs tag) (world st)) as [[e out] w] eqn:H.
  by rewrite (findCommitSha_run _ _ _ _ _ _ _ H).
Qed.

Section Stages.
Context {W : Type} (env : Env W).
Variables (sb : Shipbot.t) (buildDir : string).

Local Abbreviation cfg := (Shipbot.Config sb).
Local Abbreviation client := (Shipbot.Client sb).
Local Abbreviation owner := (Owner (Shipbot.Config sb)).
Local Abbreviation repo := (Repo (Shipbot.Config sb)).

(** [ensureRelease], path by path. *)
Lemma ensureRelease_unfold st :
  ensureRelease env sb buildDir st
  = let g := globals st in
    let '(r, w1) := Repositories_ListReleases env client owner repo (world st) in
    match r with
    | Err err => ([EvListReleases owner repo], Build_State g w1,
                  Err (ErrListingReleases err))
    | Ok releases =>
        match findRelease (tag g) releases with
        | Some found => ([EvListReleases owner repo], Build_State g w1, Ok found)
        | None =>
            if String.eqb (target g) "" then
              let rs := findCommitSha env buildDir (tag g) (Build_State g w1) in
              let g2 := {| tag := tag g; target := (value rs).1;
                           configFile := configFile g; githubUser := githubUser g;
                           githubPassword := githubPassword g;
                           githubAccessToken := githubAccessToken g |} in
              match (value rs).2 with
              | Some err =>
                  ([EvListReleases owner repo; EvRun buildDir "git" (gitArgs (tag g))],
                   Build_State g2 (world (final rs)),
                   Err (ErrCannotFindSha (tag g) err))
              | None =>
                  let release := draft (tag g) (value rs).1 in
                  let '(c, w3) := Repositories_CreateRelease env client owner repo
                                    release (world (final rs)) in
                  ([EvListReleases owner repo; EvRun buildDir "git" (gitArgs (tag g));
                    EvCreateRelease owner repo release],
                   Build_State g2 w3,
                   match c with
                   | Err err => Err (ErrCreatingRelease err)
                   | Ok found => Ok found
                   end)
              end
            else
              let release := draft (tag g) (target g) in
              let '(c, w3) := Repositories_CreateRelease env client owner repo
                                release w1 in
              ([EvListReleases owner repo; EvCreateRelease owner repo release],
               Build_State g w3,
               match c with
               | Err err => Err (ErrCreatingRelease err)
               | Ok found => Ok found
               end)
        end
    end.
Proof.
  unfold ensureRelease. unfold_M. cbv zeta.
  destruct (Repositories_ListReleases env client owner repo (world st))
    as [[releases|err] w1]; simpl; [|done].
  destruct (findRelease (tag (globals st)) releases); simpl; [done|].
  destruct (String.eqb (target (globals st)) "").
  - pose proof (findCommitSha_trace env buildDir (tag (globals st))
                  (Build_State (globals st) w1)) as Ht.
    pose proof (findCommitSha_globals env buildDir (tag (globals st))
                  (Build_State (globals st) w1)) as Hg.
    destruct (findCommitSha env buildDir (tag (globals st))
                (Build_State (globals st) w1)) as [[tg sg] [sha [err|]]];
      unfold trace, final in Ht, Hg; simpl in Ht, Hg; subst tg; simpl;
      rewrite Hg; [done|].
    by destruct (Repositories_CreateRelease _ _ _ _ _ _) as [[f|err] w3].
  - simpl. destruct (globals st). simpl.
    by destruct (Repositories_CreateRelease _ _ _ _ _ _) as [[f|err] w3].
Qed.

(** [ensureRelease] neither stats, opens nor uploads anything. *)
Lemma ensureRelease_events st ev :
  ev ∈ trace (ensureRelease env sb buildDir st) →
  ev = EvListReleases owner repo
  ∨ ev = EvRun buildDir "git" (gitArgs (tag (globals st)))
  ∨ ∃ release, ev = EvCreateRelease owner repo release.
Proof.
  rewrite ensureRelease_unfold. cbv zeta.
  destruct (Repositories_ListReleases env client owner repo (world st))
    as [[releases|err] w1]; [|intros Hin; trace_cases Hin; by left].
  destruct (findRelease _ releases); [intros Hin; trace_cases Hin; by left|].
  destruct (String.eqb _ "").
  - destruct ((value (findCommitSha _ _ _ _)).2).
    + intros Hin; trace_cases Hin; [by left | by right; left].
    + destruct (Repositories_CreateRelease _ _ _ _ _ _) as [c w3].
      intros Hin; trace_cases Hin; [by left | by right; left | right; right; eauto].
  - destruct (Repositories_CreateRelease _ _ _ _ _ _) as [c w3].
    intros Hin; trace_cases Hin; [by left | right; right; eauto].
Qed.
End Stages.

(** ** What one asset and the loop may do *)

Section Shapes.
Context {W : Type} (env : Env W).
Variables (sb : Shipbot.t) (found : RepositoryRelease.t).
Variable assetMap : gmap string ReleaseAsset.t.

Local Abbreviation owner := (Owner (Shipbot.Config sb)).
Local Abbreviation repo := (Repo (Shipbot.Config sb)).
Local Abbreviation id := (i64v (RepositoryRelease.ID found)).

(** The three traces [syncAsset] can leave, with what each tells. *)
Lemma syncAsset_shape am st :
  let r := syncAsset env sb found am assetMap st in
  trace r = [EvStat (Source am)]
  ∨ (trace r = [EvStat (Source am); EvOpen (Source am)]
     ∧ assetMap !! GithubName am = None
     ∧ ∃ err, value r = Some (ErrOpening (Source am) err))
  ∨ (∃ f, trace r = [EvStat (Source am); EvOpen (Source am);
                     EvUploadReleaseAsset owner repo id (GithubName am) f;
                     EvClose f]
          ∧ assetMap !! GithubName am = None
          ∧ (value r = None
             ∨ ∃ err, value r = Some (ErrUploadingAssets (GithubName am) err))).
Proof.
  cbv zeta.
  destruct (os_Stat env (Source am) (world st)) as [[fi|err] w] eqn:H;
    [|left; by rewrite (syncAsset_stat_failed _ _ _ _ _ _ _ _ H)].
  destruct (assetMap !! GithubName am) as [existing|] eqn:Hex;
    [left; by rewrite (syncAsset_existing _ _ _ _ _ _ _ _ _ H Hex)|].
  destruct (os_Open env (Source am) w) as [[f|err] w'] eqn:Ho.
  - destruct (Repositories_UploadReleaseAsset env (Shipbot.Client sb) owner repo
                id (GithubName am) f w') as [r w''] eqn:Hu.
    right; right. exists f.
    rewrite (syncAsset_upload _ _ _ _ _ _ _ _ _ _ _ _ H Hex Ho Hu).
    split; [done|]. split; [done|]. destruct r; [by left | right; eauto].
  - right; left. rewrite (syncAsset_open_failed _ _ _ _ _ _ _ _ _ _ H Hex Ho).
    split; [done|]. split; [done|]. eauto.
Qed.

(** The only network calls of the loop are its uploads, all to [found]. *)
Lemma syncAssets_network mappings st :
  Forall (λ ev, ∃ name f, ev = EvUploadReleaseAsset owner repo id name f)
         (network_calls (trace (syncAssets env sb found assetMap mappings st))).
Proof.
  revert st. induction mappings as [|am rest IH]; intros st; [constructor|].
  rewrite syncAssets_cons. cbv zeta.
  assert (H1 : Forall (λ ev, ∃ name f, ev = EvUploadReleaseAsset owner repo id name f)
                 (network_calls (trace (syncAsset env sb found am assetMap st)))).
  { destruct (syncAsset_shape am st) as [E|[(E & _)|(f & E & _)]]; rewrite E; simpl;
      repeat constructor. eauto. }
  destruct (value (syncAsset env sb found am assetMap st)); unfold trace at 1; simpl;
    [done|].
  unfold network_calls. rewrite List.filter_app. apply Forall_app. split; [done|].
  apply IH.
Qed.

Lemma syncAssets_no_subprocess mappings st :
  subprocesses (trace (syncAssets env sb found assetMap mappings st)) = [].
Proof.
  revert st. induction mappings as [|am rest IH]; intros st; [done|].
  rewrite syncAssets_cons. cbv zeta.
  assert (H1 : subprocesses (trace (syncAsset env sb found am assetMap st)) = []).
  { by destruct (syncAsset_shape am st) as [E|[(E & _)|(f & E & _)]]; rewrite E. }
  destruct (value (syncAsset env sb found am assetMap st)); unfold trace at 1; simpl;
    [done|].
  unfold subprocesses in *. by rewrite List.filter_app, H1, IH.
Qed.
End Shapes.

Section DoReleaseStages.
Context {W : Type} (env : Env W).
Variables (sb : Shipbot.t) (buildDir : string).

Local Abbreviation client := (Shipbot.Client sb).
Local Abbreviation owner := (Owner (Shipbot.Config sb)).
Local Abbreviation repo := (Repo (Shipbot.Config sb)).
Local Abbreviation ensure := (ensureRelease env sb buildDir).

Lemma ensureRelease_network st :
  ∃ c, network_calls (trace (ensure st)) = EvListReleases owner repo :: c
       ∧ (c = [] ∨ ∃ release, c = [EvCreateRelease owner repo release]).
Proof.
  rewrite ensureRelease_unfold. cbv zeta.
  destruct (Repositories_ListReleases env client owner repo (world st))
    as [[releases|err] w1]; [|exists []; split; [done | by left]].
  destruct (findRelease _ releases); [exists []; split; [done | by left]|].
  destruct (String.eqb _ "").
  - destruct ((value (findCommitSha _ _ _ _)).2);
      [exists []; split; [done | by left]|].
    destruct (Repositories_CreateRelease _ _ _ _ _ _) as [c w3].
    eexists [_]. split; [reflexivity | right; eauto].
  - destruct (Repositories_CreateRelease _ _ _ _ _ _) as [c w3].
    eexists [_]. split; [reflexivity | right; eauto].
Qed.

Lemma ensureRelease_quiet st :
  stats (trace (ensure st)) = [] ∧ uploads (trace (ensure st)) = [].
Proof.
  split; apply filter_none; intros ev Hin;
    by destruct (ensureRelease_events env sb buildDir st ev Hin)
      as [->|[->|[release ->]]].
Qed.

(** How the trace of [DoRelease] continues that of [ensureRelease]. *)
Lemma DoRelease_trace st :
  let r := DoRelease env sb buildDir st in
  (trace r = trace (ensure st) ∧ ∃ err, value (ensure st) = Err err ∧ value r = Some err)
  ∨ ∃ found, value (ensure st) = Ok found
      ∧ ((∃ err, trace r = trace (ensure st)
                   ++ [EvListReleaseAssets owner repo (i64v (RepositoryRelease.ID found))]
                 ∧ value r = Some (ErrListingAssets err))
         ∨ ∃ assets st1,
             trace r = trace (ensure st)
               ++ EvListReleaseAssets owner repo (i64v (RepositoryRelease.ID found))
               :: trace (syncAssets env sb found (buildAssetMap assets)
                           (Assets (Shipbot.Config sb)) st1)
             ∧ value r = value (syncAssets env sb found (buildAssetMap assets)
                                  (Assets (Shipbot.Config sb)) st1)).
Proof.
  cbv zeta. rewrite DoRelease_unfold. cbv zeta.
  destruct (value (ensure st)) as [found|err]; [|left; eauto].
  right. exists found. split; [done|].
  destruct (Repositories_ListReleaseAssets _ _ _ _ _ _) as [[assets|err] w].
  - right. by exists assets, (Build_State (globals (final (ensure st))) w).
  - left. by exists err.
Qed.
End DoReleaseStages.

(** X4: when listing the releases fails, [DoRelease] returns that error
    wrapped and has made no other call. *)
Theorem DoRelease_list_releases_failed {W} (env : Env W) sb buildDir st err w1 :
  let cfg := Shipbot.Config sb in
  let r := DoRelease env sb buildDir st in
  Repositories_ListReleases env (Shipbot.Client sb) (Owner cfg) (Repo cfg) (world st)
  = (Err err, w1) →
  value r = Some (ErrListingReleases err)
  ∧ trace r = [EvListReleases (Owner cfg) (Repo cfg)].
Proof.
  intros cfg r Hl. subst r cfg. rewrite DoRelease_unfold, ensureRelease_unfold.
  cbv zeta. by rewrite Hl.
Qed.

Lemma DoRelease_list_releases_failed_witness :
  value (DoRelease
           (Faulty.env
              {| Faulty.getwd := false; Faulty.readFile := false;
                 Faulty.unmarshal := false; Faulty.open := false;
                 Faulty.listReleases := true; Faulty.createRelease := false;
                 Faulty.listReleaseAssets := false; Faulty.upload := false |}
              Demo.token Demo.config Demo.fs)
           Demo.sb "/build" (Demo.state Demo.world))
  = Some (ErrListingReleases (APIError "500")).
Proof.
  apply (DoRelease_list_releases_failed _ Demo.sb "/build" (Demo.state Demo.world)
           (APIError "500") Demo.world).
  reflexivity.
Defined.

(** X5: when no release has the tag, no target was given and the commit
    cannot be resolved, [DoRelease] returns the resolution error wrapped
    with the tag; it has created nothing, its only network call is the
    listing, and the [target] variable is still empty. *)
Theorem DoRelease_resolution_failed {W} (env : Env W) sb buildDir st
    releases w1 sha err :
  let cfg := Shipbot.Config sb in
  let tag := tag (globals st) in
  let r := DoRelease env sb buildDir st in
  Repositories_ListReleases env (Shipbot.Client sb) (Owner cfg) (Repo cfg) (world st)
  = (Ok releases, w1) →
  (∀ rel, rel ∈ releases → sv (RepositoryRelease.TagName rel) ≠ tag) →
  target (globals st) = "" →
  value (findCommitSha env buildDir tag (Build_State (globals st) w1))
  = (sha, Some err) →
  value r = Some (ErrCannotFindSha tag err)
  ∧ network_calls (trace r) = [EvListReleases (Owner cfg) (Repo cfg)]
  ∧ target (globals (final r)) = "".
Proof.
  intros cfg tag0 r Hl Hno Ht Hsha. subst r tag0 cfg.
  pose proof (findCommitSha_error_empty _ _ _ _ _ _ Hsha) as ->.
  rewrite DoRelease_unfold, ensureRelease_unfold. cbv zeta.
  rewrite Hl, (findRelease_none _ _ Hno), Ht. simpl. by rewrite Hsha.
Qed.

Lemma DoRelease_resolution_failed_witness :
  value (DoRelease (Demo.env Demo.token Demo.config Demo.fs) Demo.sb "/build"
           (Demo.state Faulty.gitFailed))
  = Some (ErrCannotFindSha "v1.0.0" (ErrGettingGitSha "v1.0.0" (ExitError 128))).
Proof.
  apply (DoRelease_resolution_failed (Demo.env Demo.token Demo.config Demo.fs)
           Demo.sb "/build" (Demo.state Faulty.gitFailed) [] Faulty.gitFailed ""
           (ErrGettingGitSha "v1.0.0" (ExitError 128))).
  - reflexivity.
  - intros rel Hin. by apply elem_of_nil in Hin.
  - reflexivity.
  - reflexivity.
Defined.

(** X6: when the registry refuses the creation, [DoRelease] returns that
    error wrapped and stops: the creation is its last network call, so
    no asset is listed or uploaded. *)
Theorem DoRelease_creation_failed {W} (env : Env W) sb buildDir st
    releases w1 commit w2 err w3 :
  let cfg := Shipbot.Config sb in
  let tag := tag (globals st) in
  let rs := findCommitSha env buildDir tag (Build_State (globals st) w1) in
  let r := DoRelease env sb buildDir st in
  Repositories_ListReleases env (Shipbot.Client sb) (Owner cfg) (Repo cfg) (world st)
  = (Ok releases, w1) →
  (∀ rel, rel ∈ releases → sv (RepositoryRelease.TagName rel) ≠ tag) →
  (target (globals st) ≠ "" ∧ commit = target (globals st) ∧ w2 = w1)
  ∨ (target (globals st) = "" ∧ value rs = (commit, None) ∧ w2 = world (final rs)) →
  Repositories_CreateRelease env (Shipbot.Client sb) (Owner cfg) (Repo cfg)
    (draft tag commit) w2 = (Err err, w3) →
  value r = Some (ErrCreatingRelease err)
  ∧ network_calls (trace r)
    = [EvListReleases (Owner cfg) (Repo cfg);
       EvCreateRelease (Owner cfg) (Repo cfg) (draft tag commit)].
Proof.
  intros cfg tag0 rs r Hl Hno Hres Hc. subst r rs tag0 cfg.
  rewrite DoRelease_unfold, ensureRelease_unfold. cbv zeta.
  rewrite Hl, (findRelease_none _ _ Hno).
  destruct Hres as [(Hne & -> & ->)|(He & Hsha & ->)].
  - apply String.eqb_neq in Hne. rewrite Hne, Hc. done.
  - rewrite He. simpl. rewrite Hsha. simpl. rewrite Hc. done.
Qed.

Lemma DoRelease_creation_failed_witness :
  value (DoRelease
           (Faulty.env
              {| Faulty.getwd := false; Faulty.readFile := false;
                 Faulty.unmarshal := false; Faulty.open := false;
                 Faulty.listReleases := false; Faulty.createRelease := true;
                 Faulty.listReleaseAssets := false; Faulty.upload := false |}
              Demo.token Demo.config Demo.fs)
           Demo.sb "/build" (Demo.state Demo.world))
  = Some (ErrCreatingRelease (APIError "422")).
Proof.
  apply (DoRelease_creation_failed _ Demo.sb "/build" (Demo.state Demo.world)
           [] Demo.world Demo.sha Demo.world (APIError "422") Demo.world).
  - reflexivity.
  - intros rel Hin. by apply elem_of_nil in Hin.
  - right. repeat split.
  - reflexivity.
Defined.

(** X7: after a successful creation the run goes on with the release the
    registry returned: its id (0 when the answer has none) is the one
    whose assets are listed and to which every upload is attached. *)
Theorem DoRelease_uses_created_release {W} (env : Env W) sb buildDir st
    releases w1 commit w2 found w3 :
  let cfg := Shipbot.Config sb in
  let tag := tag (globals st) in
  let rs := findCommitSha env buildDir tag (Build_State (globals st) w1) in
  let r := DoRelease env sb buildDir st in
  let id := i64v (RepositoryRelease.ID found) in
  Repositories_ListReleases env (Shipbot.Client sb) (Owner cfg) (Repo cfg) (world st)
  = (Ok releases, w1) →
  (∀ rel, rel ∈ releases → sv (RepositoryRelease.TagName rel) ≠ tag) →
  (target (globals st) ≠ "" ∧ commit = target (globals st) ∧ w2 = w1)
  ∨ (target (globals st) = "" ∧ value rs = (commit, None) ∧ w2 = world (final rs)) →
  Repositories_CreateRelease env (Shipbot.Client sb) (Owner cfg) (Repo cfg)
    (draft tag commit) w2 = (Ok found, w3) →
  ∃ u, network_calls (trace r)
       = [EvListReleases (Owner cfg) (Repo cfg);
          EvCreateRelease (Owner cfg) (Repo cfg) (draft tag commit);
          EvListReleaseAssets (Owner cfg) (Repo cfg) id] ++ u
     ∧ Forall (λ ev, ∃ name f,
                 ev = EvUploadReleaseAsset (Owner cfg) (Repo cfg) id name f) u.
Proof.
  intros cfg tag0 rs r id Hl Hno Hres Hc. subst r rs tag0 cfg id.
  assert (He : ∃ t0 g0,
             ensureRelease env sb buildDir st = (t0, Build_State g0 w3, Ok found)
             ∧ network_calls t0
               = [EvListReleases (Owner (Shipbot.Config sb)) (Repo (Shipbot.Config sb));
                  EvCreateRelease (Owner (Shipbot.Config sb)) (Repo (Shipbot.Config sb))
                    (draft (tag (globals st)) commit)]).
  { rewrite ensureRelease_unfold. cbv zeta.
    rewrite Hl, (findRelease_none _ _ Hno).
    destruct Hres as [(Hne & -> & ->)|(Hempty & Hsha & ->)].
    - apply String.eqb_neq in Hne. rewrite Hne, Hc. eauto.
    - rewrite Hempty. simpl. rewrite Hsha. simpl. rewrite Hc. eauto. }
  destruct He as (t0 & g0 & He & Hn).
  rewrite DoRelease_unfold. cbv zeta. rewrite He. unfold value, final; cbn [fst snd].
  destruct (Repositories_ListReleaseAssets _ _ _ _ _ _) as [[assets|err] w].
  - set (r2 := syncAssets env sb found _ _ _).
    exists (network_calls (trace r2)). split; [|apply syncAssets_network].
    unfold trace at 1 2; cbn [fst snd]. unfold network_calls at 1.
    rewrite List.filter_app. fold (network_calls t0). by rewrite Hn.
  - exists []. split; [|constructor].
    unfold trace; cbn [fst snd]. unfold network_calls at 1.
    rewrite List.filter_app. fold (network_calls t0). by rewrite Hn.
Qed.

Lemma DoRelease_uses_created_release_witness :
  ∃ u, network_calls
         (trace (DoRelease (Demo.env Demo.token Demo.config Demo.fs) Demo.sb "/build"
                   (Demo.state Demo.world)))
       = [EvListReleases "o" "r";
          EvCreateRelease "o" "r" (draft "v1.0.0" Demo.sha);
          EvListReleaseAssets "o" "r" 1] ++ u
     ∧ Forall (λ ev, ∃ name f, ev = EvUploadReleaseAsset "o" "r" 1 name f) u.
Proof.
  apply (DoRelease_uses_created_release
           (Demo.env Demo.token Demo.config Demo.fs) Demo.sb "/build"
           (Demo.state Demo.world) [] Demo.world Demo.sha Demo.world
           (RepositoryRelease.mk (Some 1) (Some "v1.0.0") (Some Demo.sha)
              (Some "v1.0.0") (Some "Release v1.0.0 (draft)") (Some true))
           {| Demo.releases :=
                [RepositoryRelease.mk (Some 1) (Some "v1.0.0") (Some Demo.sha)
                   (Some "v1.0.0") (Some "Release v1.0.0 (draft)") (Some true)];
              Demo.assets := []; Demo.gitResult := (None, Demo.sha +:+ newline) |}).
  - reflexivity.
  - intros rel Hin. by apply elem_of_nil in Hin.
  - right. repeat split.
  - reflexivity.
Defined.

(** X8: when listing the assets of the release fails, [DoRelease] returns
    that error wrapped; no source has been statted and nothing uploaded. *)
Theorem DoRelease_list_assets_failed {W} (env : Env W) sb buildDir st found err w :
  let cfg := Shipbot.Config sb in
  let r0 := ensureRelease env sb buildDir st in
  let r := DoRelease env sb buildDir st in
  value r0 = Ok found →
  Repositories_ListReleaseAssets env (Shipbot.Client sb) (Owner cfg) (Repo cfg)
    (i64v (RepositoryRelease.ID found)) (world (final r0)) = (Err err, w) →
  value r = Some (ErrListingAssets err)
  ∧ trace r = trace r0 ++ [EvListReleaseAssets (Owner cfg) (Repo cfg)
                             (i64v (RepositoryRelease.ID found))]
  ∧ stats (trace r) = [] ∧ uploads (trace r) = [].
Proof.
  intros cfg r0 r Hok Hl. subst r r0 cfg.
  rewrite DoRelease_unfold. cbv zeta. rewrite Hok, Hl.
  destruct (ensureRelease_quiet env sb buildDir st) as [Hs Hu].
  set (t0 := trace (ensureRelease env sb buildDir st)) in *. clearbody t0.
  unfold value, trace; cbn [fst snd].
  unfold stats, uploads in *. rewrite !List.filter_app, Hs, Hu. done.
Qed.

Lemma DoRelease_list_assets_failed_witness :
  value (DoRelease
           (Faulty.env
              {| Faulty.getwd := false; Faulty.readFile := false;
                 Faulty.unmarshal := false; Faulty.open := false;
                 Faulty.listReleases := false; Faulty.createRelease := false;
                 Faulty.listReleaseAssets := true; Faulty.upload := false |}
              Demo.token Demo.config Demo.fs)
           Demo.sb "/build" (Demo.state Demo.tagged))
  = Some (ErrListingAssets (APIError "500")).
Proof.
  apply (DoRelease_list_assets_failed _ Demo.sb "/build" (Demo.state Demo.tagged)
           (RepositoryRelease.mk (Some 9) (Some "v1.0.0") None None None None)
           (APIError "500") Demo.tagged); reflexivity.
Defined.


Section DoReleaseWhole.
Context {W : Type} (env : Env W).
Variables (sb : Shipbot.t) (buildDir : string).

Local Abbreviation client := (Shipbot.Client sb).
Local Abbreviation owner := (Owner (Shipbot.Config sb)).
Local Abbreviation repo := (Repo (Shipbot.Config sb)).

Lemma DoRelease_subprocesses st :
  subprocesses (trace (DoRelease env sb buildDir st))
  = subprocesses (trace (ensureRelease env sb buildDir st)).
Proof.
  destruct (DoRelease_trace env sb buildDir st)
    as [[-> _]|(found & _ & [(err & -> & _)|(assets & st1 & -> & _)])]; [done|..];
    unfold subprocesses; rewrite List.filter_app; simpl; [by rewrite app_nil_r|].
  fold (subprocesses (trace (syncAssets env sb found (buildAssetMap assets)
                               (Assets (Shipbot.Config sb)) st1))).
  by rewrite syncAssets_no_subprocess, app_nil_r.
Qed.

End DoReleaseWhole.

(** X9: a run of [DoRelease] starts at most one subprocess, and only when
    it must resolve the commit: the release list was fetched, no release
    has the tag and no target was given.  The subprocess is
    [git rev-list -n 1 <tag>], run in the build directory. *)
Theorem DoRelease_subprocess_only_to_resolve {W} (env : Env W) sb buildDir st :
  let cfg := Shipbot.Config sb in
  let t := trace (DoRelease env sb buildDir st) in
  subprocesses t = []
  ∨ (subprocesses t
     = [EvRun buildDir "git" ["rev-list"; "-n"; "1"; tag (globals st)]]
     ∧ target (globals st) = ""
     ∧ ∃ releases w1,
         Repositories_ListReleases env (Shipbot.Client sb) (Owner cfg) (Repo cfg)
           (world st) = (Ok releases, w1)
         ∧ findRelease (tag (globals st)) releases = None).
Proof.
  cbv zeta. rewrite DoRelease_subprocesses, ensureRelease_unfold. cbv zeta.
  destruct (Repositories_ListReleases _ _ _ _ _) as [[releases|err] w1]; [|by left].
  destruct (findRelease _ releases) eqn:Hf; [by left|].
  destruct (String.eqb_spec (target (globals st)) "") as [Ht|Ht].
  - right.
    destruct ((value (findCommitSha _ _ _ _)).2).
    + split; [done|]. split; [done|]. by exists releases, w1.
    + destruct (Repositories_CreateRelease _ _ _ _ _ _) as [c w3].
      split; [done|]. split; [done|]. by exists releases, w1.
  - left. by destruct (Repositories_CreateRelease _ _ _ _ _ _) as [c w3].
Qed.

(** X10: the network calls of a run of [DoRelease] come in a fixed order:
    first the listing of releases, then at most one creation, then at
    most one listing of assets, then uploads only, all to the release
    whose assets were listed. *)
Theorem DoRelease_call_order {W} (env : Env W) sb buildDir st :
  let cfg := Shipbot.Config sb in
  ∃ c l,
    network_calls (trace (DoRelease env sb buildDir st))
    = EvListReleases (Owner cfg) (Repo cfg) :: c ++ l
    ∧ (c = [] ∨ ∃ release, c = [EvCreateRelease (Owner cfg) (Repo cfg) release])
    ∧ (l = []
       ∨ ∃ id u,
           l = EvListReleaseAssets (Owner cfg) (Repo cfg) id :: u
           ∧ Forall (λ ev, ∃ name f,
                       ev = EvUploadReleaseAsset (Owner cfg) (Repo cfg) id name f) u).
Proof.
  cbv zeta.
  destruct (ensureRelease_network env sb buildDir st) as (c & Hn & Hc).
  exists c.
  destruct (DoRelease_trace env sb buildDir st)
    as [[-> _]|(found & _ & [(err & -> & _)|(assets & st1 & -> & _)])].
  - exists []. rewrite app_nil_r. split; [done|]. split; [done | by left].
  - eexists [_]. unfold network_calls in *. rewrite List.filter_app, Hn. simpl.
    split; [reflexivity|]. split; [done|]. right. eexists _, []. split; [done|constructor].
  - eexists (_ :: _). unfold network_calls in *. rewrite List.filter_app, Hn. simpl.
    split; [reflexivity|]. split; [done|]. right. eexists _, _. split; [done|].
    apply syncAssets_network.
Qed.


(** ** The asset loop, as a whole *)









(** X16: when the source exists and its name is not on the release but
    the file cannot be opened, [syncAsset] returns the open error wrapped
    with the source path and makes no network call. *)
Theorem syncAsset_open_error {W} (env : Env W) sb release am assets st fi w err w' :
  os_Stat env (Source am) (world st) = (Ok fi, w) →
  assets !! GithubName am = None →
  os_Open env (Source am) w = (Err err, w') →
  let r := syncAsset env sb release am assets st in
  value r = Some (ErrOpening (Source am) err)
  ∧ network_calls (trace r) = [].
Proof.
  intros Hs Hn Ho r. subst r.
  by rewrite (syncAsset_open_failed _ _ _ _ _ _ _ _ _ _ Hs Hn Ho).
Qed.

Lemma syncAsset_open_error_witness :
  value (syncAsset
           (Faulty.env
              {| Faulty.getwd := false; Faulty.readFile := false;
                 Faulty.unmarshal := false; Faulty.open := true;
                 Faulty.listReleases := false; Faulty.createRelease := false;
                 Faulty.listReleaseAssets := false; Faulty.upload := false |}
              Demo.token Demo.config Demo.fs)
           Demo.sb Demo.release Demo.bin ∅ (Demo.state Demo.world))
  = Some (ErrOpening "dist/bin" (PathError "open" "dist/bin" EACCES)).
Proof.
  apply (syncAsset_open_error _ Demo.sb Demo.release Demo.bin ∅
           (Demo.state Demo.world) {| Size := 1024 |} Demo.world
           (PathError "open" "dist/bin" EACCES) Demo.world); reflexivity.
Defined.

(** X17: when the upload fails, [syncAsset] returns the upload error
    wrapped with the [githubName]; it made that one upload call, to the
    given release under the configured name, and closed the file after
    it. *)
Theorem syncAsset_upload_error {W} (env : Env W) sb release am assets st
    fi w f w' err w'' :
  let cfg := Shipbot.Config sb in
  let id := i64v (RepositoryRelease.ID release) in
  os_Stat env (Source am) (world st) = (Ok fi, w) →
  assets !! GithubName am = None →
  os_Open env (Source am) w = (Ok f, w') →
  Repositories_UploadReleaseAsset env (Shipbot.Client sb) (Owner cfg) (Repo cfg)
    id (GithubName am) f w' = (Err err, w'') →
  let r := syncAsset env sb release am assets st in
  value r = Some (ErrUploadingAssets (GithubName am) err)
  ∧ trace r = [EvStat (Source am); EvOpen (Source am);
               EvUploadReleaseAsset (Owner cfg) (Repo cfg) id (GithubName am) f;
               EvClose f].
Proof.
  intros cfg id Hs Hn Ho Hu r. subst r cfg id.
  by rewrite (syncAsset_upload _ _ _ _ _ _ _ _ _ _ _ _ Hs Hn Ho Hu).
Qed.

Lemma syncAsset_upload_error_witness :
  value (syncAsset
           (Faulty.env
              {| Faulty.getwd := false; Faulty.readFile := false;
                 Faulty.unmarshal := false; Faulty.open := false;
                 Faulty.listReleases := false; Faulty.createRelease := false;
                 Faulty.listReleaseAssets := false; Faulty.upload := true |}
              Demo.token Demo.config Demo.fs)
           Demo.sb Demo.release Demo.bin ∅ (Demo.state Demo.world))
  = Some (ErrUploadingAssets "bin-linux-amd64" (APIError "502")).
Proof.
  apply (syncAsset_upload_error _ Demo.sb Demo.release Demo.bin ∅
           (Demo.state Demo.world) {| Size := 1024 |} Demo.world
           {| Name := "dist/bin" |} Demo.world (APIError "502") Demo.world);
    reflexivity.
Defined.

(** ** The two look-ups *)

Lemma last_match {A} (P : A → Prop) `{∀ x, Decision (P x)} (l : list A) :
  (∃ x, x ∈ l ∧ P x) →
  ∃ pre x post, l = pre ++ x :: post ∧ P x ∧ ∀ y, y ∈ post → ¬ P y.
Proof.
  induction l as [|z l IH] using rev_ind; intros (x & Hin & Hx).
  { by apply elem_of_nil in Hin. }
  destruct (decide (P z)) as [Hz|Hz].
  - exists l, z, []. repeat split; [done|]. by intros ? ?%elem_of_nil.
  - apply elem_of_app in Hin as [Hin|Hin%list_elem_of_singleton]; [|by subst].
    destruct IH as (pre & y & post & -> & Hy & Hpost); [by exists x|].
    exists pre, y, (post ++ [z]). rewrite <- app_assoc. repeat split; [done|].
    intros y' [Hy'|Hy'%list_elem_of_singleton]%elem_of_app; [by apply Hpost | by subst].
Qed.

(** X18: [findRelease] returns exactly the last release of the list whose
    tag name ([""] for a release without one) equals the tag, and nothing
    when no release has it. *)
Theorem findRelease_spec (tag : string) (releases : list RepositoryRelease.t) :
  (∀ rel, findRelease tag releases = Some rel
          ↔ ∃ pre post,
              releases = pre ++ rel :: post
              ∧ sv (RepositoryRelease.TagName rel) = tag
              ∧ ∀ rel', rel' ∈ post → sv (RepositoryRelease.TagName rel') ≠ tag)
  ∧ (findRelease tag releases = None
     ↔ ∀ rel, rel ∈ releases → sv (RepositoryRelease.TagName rel) ≠ tag).
Proof.
  split.
  - intros rel. split.
    + intros Hf.
      destruct (decide (Exists (λ r, sv (RepositoryRelease.TagName r) = tag) releases))
        as [Hex%Exists_exists|Hno].
      * destruct (findRelease_some tag releases Hex)
          as (pre & rel' & post & E & Ht & Hpost & Hf').
        assert (rel' = rel) as -> by congruence. by exists pre, post.
      * rewrite findRelease_none in Hf; [done|]. intros r Hr Ht. apply Hno.
        apply Exists_exists. eauto.
    + intros (pre & post & -> & Ht & Hpost). by apply findRelease_last.
  - split; [|apply findRelease_none].
    intros Hf rel Hin Ht.
    destruct (findRelease_some tag releases) as (? & ? & ? & _ & _ & _ & Hf');
      [by exists rel | congruence].
Qed.

(** X19: the asset index maps a name to the last asset of the list with
    that name ([""] for an asset without one), and has no entry for a
    name that no listed asset has. *)
Theorem buildAssetMap_spec (assets : list ReleaseAsset.t) (name : string) :
  (∀ a, buildAssetMap assets !! name = Some a
        ↔ ∃ pre post,
            assets = pre ++ a :: post
            ∧ sv (ReleaseAsset.Name a) = name
            ∧ ∀ a', a' ∈ post → sv (ReleaseAsset.Name a') ≠ name)
  ∧ (buildAssetMap assets !! name = None
     ↔ ∀ a, a ∈ assets → sv (ReleaseAsset.Name a) ≠ name).
Proof.
  split.
  - intros a. split.
    + intros Hm.
      assert (Hex : ∃ x, x ∈ assets ∧ sv (ReleaseAsset.Name x) = name).
      { apply buildAssetMap_is_Some. by exists a. }
      destruct (last_match (λ x, sv (ReleaseAsset.Name x) = name) assets Hex)
        as (pre & x & post & -> & Hx & Hpost).
      subst name. rewrite buildAssetMap_last in Hm by done.
      injection Hm as <-. by exists pre, post.
    + intros (pre & post & -> & <- & Hpost). by apply buildAssetMap_last.
  - rewrite eq_None_not_Some, buildAssetMap_is_Some. split.
    + intros Hno a Hin Ha. apply Hno. by exists a.
    + intros Hno (a & Hin & Ha). by apply (Hno a).
Qed.

(** ** The whole process *)

Section RunFacts.
Context {W : Type} (env : Env W).

(** [main], path by path. *)
Lemma run_unfold cmd w :
  run env cmd w
  = let p := parsed env cmd in
    let '(r, w1) := os_Getwd env w in
    match r with
    | Err err => ([EvGetwd], Build_State (initGlobals env) w1, Fatalf (FatalGetwd err))
    | Ok cwd =>
        if String.eqb (tag p) "" then ([EvGetwd], Build_State p w1, Fatalf FatalNoTag)
        else if String.eqb (configFile p) ""
        then ([EvGetwd], Build_State p w1, Fatalf FatalNoConfig)
        else
          let '(rf, w2) := ioutil_ReadFile env (configFile p) w1 in
          match rf with
          | Err err =>
              ([EvGetwd; EvReadFile (configFile p)], Build_State p w2,
               Fatalf (FatalReadConfig (configFile p) err))
          | Ok configBytes =>
              match yaml_Unmarshal env configBytes with
              | Err err =>
                  ([EvGetwd; EvReadFile (configFile p)], Build_State p w2,
                   Fatalf (FatalParseConfig (configFile p) err))
              | Ok config =>
                  match newClient p with
                  | None =>
                      ([EvGetwd; EvReadFile (configFile p)], Build_State p w2,
                       Fatalf FatalNoCredentials)
                  | Some client =>
                      let d := DoRelease env (Shipbot.mk client config)
                                 (default cwd (flag_builddir cmd))
                                 (Build_State p w2) in
                      (EvGetwd :: EvReadFile (configFile p) :: trace d, final d,
                       match value d with
                       | Some err => Fatalf (FatalUnexpected err)
                       | None => Exit0
                       end)
                  end
              end
          end
    end.
Proof.
  cbv zeta.
  destruct (os_Getwd env w) as [[cwd|err] w1] eqn:Hwd.
  2:{ unfold run, main. unfold_M. simpl. by rewrite Hwd. }
  destruct (String.eqb_spec (tag (parsed env cmd)) "") as [Ht|Ht].
  { unfold run, main. unfold_M. simpl. rewrite Hwd. simpl. fold (parsed env cmd).
    simpl in Ht. by rewrite Ht. }
  destruct (String.eqb_spec (configFile (parsed env cmd)) "") as [Hc|Hc].
  { unfold run, main. unfold_M. simpl. rewrite Hwd. simpl. fold (parsed env cmd).
    apply String.eqb_neq in Ht. apply String.eqb_eq in Hc. simpl in Ht, Hc.
    rewrite Ht. simpl. by rewrite Hc. }
  destruct (ioutil_ReadFile env (configFile (parsed env cmd)) w1)
    as [[configBytes|err] w2] eqn:Hread.
  2:{ unfold run, main. unfold_M. simpl. rewrite Hwd. simpl. fold (parsed env cmd).
      apply String.eqb_neq in Ht, Hc. simpl in Ht, Hc, Hread.
      rewrite Ht. simpl. rewrite Hc. simpl. by rewrite Hread. }
  destruct (yaml_Unmarshal env configBytes) as [config|err] eqn:Hyaml.
  - by apply (main_loaded env cmd w cwd w1 configBytes w2 config).
  - unfold run, main. unfold_M. simpl. rewrite Hwd. simpl. fold (parsed env cmd).
    apply String.eqb_neq in Ht, Hc. simpl in Ht, Hc, Hread.
    rewrite Ht. simpl. rewrite Hc. simpl. rewrite Hread. simpl. by rewrite Hyaml.
Qed.

Lemma newClient_None_inv g :
  newClient g = None →
  githubAccessToken g = "" ∧ (githubUser g = "" ∨ githubPassword g = "").
Proof.
  unfold newClient.
  destruct (String.eqb_spec (githubAccessToken g) ""); simpl; [|done].
  destruct (String.eqb_spec (githubUser g) ""); simpl; [by auto|].
  destruct (String.eqb_spec (githubPassword g) ""); simpl; [by auto | done].
Qed.

Lemma ensureRelease_subprocesses sb buildDir st :
  subprocesses (trace (ensureRelease env sb buildDir st)) = []
  ∨ subprocesses (trace (ensureRelease env sb buildDir st))
    = [EvRun buildDir "git" (gitArgs (tag (globals st)))].
Proof.
  rewrite ensureRelease_unfold. cbv zeta.
  destruct (Repositories_ListReleases _ _ _ _ _) as [[releases|err] w1]; [|by left].
  destruct (findRelease _ releases); [by left|].
  destruct (String.eqb _ "").
  - right. destruct ((value (findCommitSha _ _ _ _)).2); [done|].
    by destruct (Repositories_CreateRelease _ _ _ _ _ _) as [c w3].
  - left. by destruct (Repositories_CreateRelease _ _ _ _ _ _) as [c w3].
Qed.
End RunFacts.

(** X20: [main] looks up the working directory before it reads the
    flags, so a failure there is fatal even when [-builddir] is given; a
    missing [-tag] is reported before a missing [-config]; in all three
    cases the process ends without reading the configuration file. *)
Theorem main_startup_checks {W} (env : Env W) cmd w r w1 :
  os_Getwd env w = (r, w1) →
  let p := parsed env cmd in
  match r with
  | Err err =>
      value (run env cmd w) = Fatalf (FatalGetwd err)
      ∧ trace (run env cmd w) = [EvGetwd]
  | Ok _ =>
      (tag p = "" →
       value (run env cmd w) = Fatalf FatalNoTag ∧ trace (run env cmd w) = [EvGetwd])
      ∧ (tag p ≠ "" → configFile p = "" →
         value (run env cmd w) = Fatalf FatalNoConfig
         ∧ trace (run env cmd w) = [EvGetwd])
  end.
Proof.
  intros Hwd p. subst p. rewrite run_unfold. cbv zeta. rewrite Hwd.
  destruct r as [cwd|err]; [|done]. split.
  - intros Ht. simpl in Ht. simpl. by rewrite Ht.
  - intros Ht%String.eqb_neq Hc. simpl in Ht, Hc. simpl. by rewrite Ht, Hc.
Qed.

Lemma main_startup_checks_witness :
  value (run
           (Faulty.env
              {| Faulty.getwd := true; Faulty.readFile := false;
                 Faulty.unmarshal := false; Faulty.open := false;
                 Faulty.listReleases := false; Faulty.createRelease := false;
                 Faulty.listReleaseAssets := false; Faulty.upload := false |}
              Demo.token Demo.config Demo.fs)
           {| flag_tag := Some "v1.0.0"; flag_target := None;
              flag_config := Some "shipbot.yaml"; flag_builddir := Some "/src" |}
           Demo.world)
  = Fatalf (FatalGetwd (OtherError "getwd")).
Proof.
  apply (main_startup_checks _
           {| flag_tag := Some "v1.0.0"; flag_target := None;
              flag_config := Some "shipbot.yaml"; flag_builddir := Some "/src" |}
           Demo.world (Err (OtherError "getwd")) Demo.world).
  reflexivity.
Defined.

(** X21: a configuration file that cannot be read, or whose content
    cannot be parsed, is fatal; this is found out before the credentials
    are looked at, and the process ends with no network call. *)
Theorem main_config_errors {W} (env : Env W) cmd w cwd w1 rf w2 :
  let p := parsed env cmd in
  let r := run env cmd w in
  os_Getwd env w = (Ok cwd, w1) →
  tag p ≠ "" → configFile p ≠ "" →
  ioutil_ReadFile env (configFile p) w1 = (rf, w2) →
  match rf with
  | Err err =>
      value r = Fatalf (FatalReadConfig (configFile p) err)
      ∧ network_calls (trace r) = []
  | Ok configBytes =>
      ∀ err, yaml_Unmarshal env configBytes = Err err →
             value r = Fatalf (FatalParseConfig (configFile p) err)
             ∧ network_calls (trace r) = []
  end.
Proof.
  intros p r Hwd Ht%String.eqb_neq Hc%String.eqb_neq Hread. subst p r.
  rewrite run_unfold. cbv zeta. rewrite Hwd, Ht, Hc, Hread.
  destruct rf as [configBytes|err]; [|done].
  intros err Hyaml. by rewrite Hyaml.
Qed.

Lemma main_config_errors_witness :
  value (run
           (Faulty.env
              {| Faulty.getwd := false; Faulty.readFile := false;
                 Faulty.unmarshal := true; Faulty.open := false;
                 Faulty.listReleases := false; Faulty.createRelease := false;
                 Faulty.listReleaseAssets := false; Faulty.upload := false |}
              [] Demo.config Demo.fs)
           Demo.cmdline Demo.world)
  = Fatalf (FatalParseConfig "shipbot.yaml" (OtherError "yaml")).
Proof.
  apply (main_config_errors
           (Faulty.env
              {| Faulty.getwd := false; Faulty.readFile := false;
                 Faulty.unmarshal := true; Faulty.open := false;
                 Faulty.listReleases := false; Faulty.createRelease := false;
                 Faulty.listReleaseAssets := false; Faulty.upload := false |}
              [] Demo.config Demo.fs)
           Demo.cmdline Demo.world "/build" Demo.world (Ok "") Demo.world);
    (reflexivity || discriminate).
Defined.

(** X22: no network call is made before everything needed is in place:
    a run with a network call had a working directory, a tag, a config
    path, a configuration that was read and parsed, and credentials. *)
Theorem main_network_requires {W} (env : Env W) cmd w :
  let p := parsed env cmd in
  network_calls (trace (run env cmd w)) ≠ [] →
  tag p ≠ "" ∧ configFile p ≠ "" ∧ is_Some (newClient p)
  ∧ ∃ cwd w1 configBytes w2 config,
      os_Getwd env w = (Ok cwd, w1)
      ∧ ioutil_ReadFile env (configFile p) w1 = (Ok configBytes, w2)
      ∧ yaml_Unmarshal env configBytes = Ok config.
Proof.
  intros p. subst p. rewrite run_unfold. cbv zeta.
  destruct (os_Getwd env w) as [[cwd|err] w1]; [|done].
  destruct (String.eqb_spec (tag (parsed env cmd)) ""); [done|].
  destruct (String.eqb_spec (configFile (parsed env cmd)) ""); [done|].
  destruct (ioutil_ReadFile env _ w1) as [[configBytes|err] w2] eqn:Hread; [|done].
  destruct (yaml_Unmarshal env configBytes) as [config|err] eqn:Hyaml; [|done].
  destruct (newClient (parsed env cmd)) as [client|]; [|done].
  intros _. split_and!; try done. by exists cwd, w1, configBytes, w2, config.
Qed.

Lemma main_network_requires_witness :
  is_Some (newClient (parsed (Demo.env Demo.token Demo.config Demo.fs) Demo.cmdline)).
Proof.
  apply (main_network_requires (Demo.env Demo.token Demo.config Demo.fs)
           Demo.cmdline Demo.world).
  vm_compute. discriminate.
Defined.


(** X24: the missing-credentials exit happens only when there is no access
    token and no complete username/password pair, and only after the
    configuration file has been read and parsed. *)
Theorem main_no_credentials_only_when_missing {W} (env : Env W) cmd w :
  value (run env cmd w) = Fatalf FatalNoCredentials →
  os_Getenv env "GITHUB_TOKEN" = ""
  ∧ (os_Getenv env "GITHUB_USER" = "" ∨ os_Getenv env "GITHUB_PASSWORD" = "")
  ∧ trace (run env cmd w) = [EvGetwd; EvReadFile (configFile (parsed env cmd))]
  ∧ ∃ cwd w1 configBytes w2 config,
      os_Getwd env w = (Ok cwd, w1)
      ∧ ioutil_ReadFile env (configFile (parsed env cmd)) w1 = (Ok configBytes, w2)
      ∧ yaml_Unmarshal env configBytes = Ok config.
Proof.
  rewrite run_unfold. cbv zeta.
  destruct (os_Getwd env w) as [[cwd|err] w1]; [|done].
  destruct (String.eqb_spec (tag (parsed env cmd)) ""); [done|].
  destruct (String.eqb_spec (configFile (parsed env cmd)) ""); [done|].
  destruct (ioutil_ReadFile env _ w1) as [[configBytes|err] w2] eqn:Hread; [|done].
  destruct (yaml_Unmarshal env configBytes) as [config|err] eqn:Hyaml; [|done].
  destruct (newClient (parsed env cmd)) as [client|] eqn:Hcl.
  - unfold value at 1; cbn [fst snd]. by destruct (value (DoRelease env _ _ _)).
  - intros _. apply newClient_None_inv in Hcl as [Ht Hup].
    split_and!; try done. by exists cwd, w1, configBytes, w2, config.
Qed.

Lemma main_no_credentials_only_when_missing_witness :
  os_Getenv (Demo.env [("GITHUB_USER", "u")] Demo.config Demo.fs) "GITHUB_TOKEN" = "".
Proof.
  apply (main_no_credentials_only_when_missing
           (Demo.env [("GITHUB_USER", "u")] Demo.config Demo.fs)
           Demo.cmdline Demo.world).
  reflexivity.
Defined.

(** X25: the only subprocess a run of the process may start is
    [git rev-list -n 1 <tag>], at most once, in the directory given by
    [-builddir], or in the working directory when that flag is absent. *)
Theorem main_git_in_builddir {W} (env : Env W) cmd w :
  let t := trace (run env cmd w) in
  subprocesses t = []
  ∨ ∃ cwd w1,
      os_Getwd env w = (Ok cwd, w1)
      ∧ subprocesses t
        = [EvRun (default cwd (flag_builddir cmd)) "git"
             ["rev-list"; "-n"; "1"; default "" (flag_tag cmd)]].
Proof.
  cbv zeta. rewrite run_unfold. cbv zeta.
  destruct (os_Getwd env w) as [[cwd|err] w1]; [|by left].
  destruct (String.eqb_spec (tag (parsed env cmd)) ""); [by left|].
  destruct (String.eqb_spec (configFile (parsed env cmd)) ""); [by left|].
  destruct (ioutil_ReadFile env _ w1) as [[configBytes|err] w2]; [|by left].
  destruct (yaml_Unmarshal env configBytes) as [config|err]; [|by left].
  destruct (newClient (parsed env cmd)) as [client|]; [|by left].
  unfold trace at 1 3; cbn [fst snd].
  change (subprocesses (EvGetwd :: EvReadFile (configFile (parsed env cmd))
                          :: trace (DoRelease env (Shipbot.mk client config)
                                      (default cwd (flag_builddir cmd))
                                      (Build_State (parsed env cmd) w2))))
    with (subprocesses (trace (DoRelease env (Shipbot.mk client config)
                                 (default cwd (flag_builddir cmd))
                                 (Build_State (parsed env cmd) w2)))).
  rewrite DoRelease_subprocesses.
  destruct (ensureRelease_subprocesses env (Shipbot.mk client config)
              (default cwd (flag_builddir cmd)) (Build_State (parsed env cmd) w2))
    as [->| ->]; [by left|].
  right. by exists cwd, w1.
Qed.

